(** * jec-fit-prototype: the fit driver, the photon+jet measurement and the
      three-point morphing, embedded in Rocq.

    - [Ieee]: facts on binary64 arithmetic ([double]) used by the proofs.
    - [PhotonJet]: src/src/PhotonJet.cpp (constructor, [GetDim], [Eval]).
    - [Strtod], [Fit]: src/prog/fit.cpp (option checks, parsing of the
      constraint, configuration of the minimizer) with the C library's [strtod]
      behind [std::stod].
    - [HistMorph]: include/HistMorph.hpp; the bodies are not part of the
      sources at hand and are modelled from the specification.

    A C++ [double] is a primitive binary64 float, [unsigned] is a [Z] wrapped
    modulo 2^32, [std::string] is [string], [std::vector] is [list]. *)

From Stdlib Require Import ZArith QArith List String Ascii Floats Lia Bool
  DecimalString DecimalNat.
From stdpp Require Import base gmap list strings.
Import ListNotations.

#[local] Set Warnings "-inexact-float".

(** ** Binary64 arithmetic *)

Module Ieee.

(** The sign of a value; a NaN counts as non-negative here, so that the
    predicate is stable under the operations below. *)
Definition SFnonneg (f : spec_float) : bool :=
  match f with
  | S754_nan => true
  | S754_zero s | S754_infinity s | S754_finite s _ _ => negb s
  end.

(** Infinite or NaN. *)
Definition SFnonfinite (f : spec_float) : bool :=
  match f with
  | S754_nan | S754_infinity _ => true
  | _ => false
  end.

Definition SFzero (f : spec_float) : bool :=
  match f with
  | S754_zero _ => true
  | _ => false
  end.

(** [x] is NaN or has a clear sign bit. *)
Definition nonneg_or_nan (x : float) : Prop := SFnonneg (Prim2SF x) = true.

(** unsigned arithmetic of the 32-bit [unsigned] type *)
Definition wrap32 (n : Z) : Z := n mod 2 ^ 32.

End Ieee.

(** ** PhotonJet (src/src/PhotonJet.cpp) *)

Module PhotonJet.

Local Open Scope float_scope.

(** [PtBin], [Nuisances] and [JetCorrBase] are declared in headers that are
    not among the sources; they are taken with the members PhotonJet.cpp uses.

    [PtBin] as filled by the constructor: three doubles. *)
Record PtBin := { ptPhoton : float; balanceRatio : float; unc2 : float }.

(** The object: its only data member read by the methods is [bins]. *)
Record t := { bins : list PtBin }.

(** [Nuisances]: the one member [Eval] reads. *)
Record Nuisances := { photonScale : float }.

(** [JetCorrBase const &]: the interface's [Eval(double) const]. *)
Definition JetCorrBase := float -> float.

(** [pow(x, 2)] and [std::pow(x, 2)]: the square of [x], taken as the
    rounded product [x * x], which is what an optimising build computes. The
    C library's [pow] can differ from it in the last bit of a finite result
    that is not exact; it gives the same result whenever the square is
    representable, on zeros, infinities and NaN, and always the same sign.
    The properties below rely on nothing else. *)
Definition pow2 (x : float) : float := x * x.

(** A point of the [TGraphErrors] read from the input file: [GetPoint]
    gives [x] and [y], [GetErrorY] gives [ey]. *)
Record GraphPoint := { gx : float; gy : float; gey : float }.

Inductive Method := PtBal | MPF.

Definition methodLabel (method : Method) : string :=
  match method with PtBal => "PtBal" | MPF => "MPF" end.

(** What the constructor can see of a ROOT file: a zombie, or a directory
    of named graphs. *)
Inductive TFile :=
| Zombie
| Opened (get : string -> option (list GraphPoint)).

Inductive ctor_result :=
| Constructed (m : t)
| Throw_runtime_error (message : string)
| Null_dereference.

Definition graphName (method : Method) : string :=
  ("resp_" ++ methodLabel method ++ "chs_extrap_a30_eta00_13")%string.

Definition bin_of_point (p : GraphPoint) : PtBin :=
  {| ptPhoton := gx p; balanceRatio := gy p; unc2 := pow2 (gey p) |}.

(** [PhotonJet::PhotonJet(fileName, method)] *)
Definition make (fileName : string) (inputFile : TFile) (method : Method)
  : ctor_result :=
  match inputFile with
  | Zombie =>
      Throw_runtime_error
        ("Failed to open file " ++ String (ascii_of_nat 34) fileName
           ++ String (ascii_of_nat 34) ".")%string
  | Opened get =>
      match get (graphName method) with
      | None => Null_dereference
      | Some extrapRatio =>
          Constructed {| bins := List.map bin_of_point extrapRatio |}
      end
  end.

(** [PhotonJet::GetDim]: [bins.size()] converted to [unsigned]. *)
Definition GetDim (self : t) : Z :=
  Ieee.wrap32 (Z.of_nat (List.length (bins self))).

(** A [const] member function: it runs against the object and hands the
    object back. *)
Definition method_of (A : Type) : Type := t -> A * t.

Definition ret {A} (a : A) : method_of A := fun self => (a, self).

Definition bind {A B} (c : method_of A) (k : A -> method_of B) : method_of B :=
  fun self => let (a, self') := c self in k a self'.

Definition read_bins : method_of (list PtBin) := fun self => (bins self, self).

(** the range-based [for] over a vector, threading the loop-carried local *)
Fixpoint for_each {A B} (l : list A) (body : A -> B -> method_of B) (acc : B)
  : method_of B :=
  match l with
  | [] => ret acc
  | a :: l' => bind (body a acc) (for_each l' body)
  end.

(** One bin's contribution, as the loop body computes it. *)
Definition term (corrector : JetCorrBase) (nuisances : Nuisances) (bin : PtBin)
  : float :=
  let balanceRatioCorr := balanceRatio bin / (1 + photonScale nuisances) in
  let ptPhoton' := ptPhoton bin * (1 + photonScale nuisances) in
  pow2 (balanceRatioCorr - 1 / corrector ptPhoton') / unc2 bin.

(** [PhotonJet::Eval] *)
Definition Eval_method (corrector : JetCorrBase) (nuisances : Nuisances)
  : method_of float :=
  bind read_bins (fun bs =>
    for_each bs (fun bin chi2 => ret (chi2 + term corrector nuisances bin)) 0).

Definition Eval (self : t) (corrector : JetCorrBase) (nuisances : Nuisances)
  : float :=
  fst (Eval_method corrector nuisances self).

(** The divisors met by one evaluation, in the order of the divisions. *)
Definition divisors (corrector : JetCorrBase) (nuisances : Nuisances)
  (bin : PtBin) : list float :=
  [ 1 + photonScale nuisances;
    corrector (ptPhoton bin * (1 + photonScale nuisances));
    unc2 bin ].

Definition Eval_divisors (self : t) (corrector : JetCorrBase)
  (nuisances : Nuisances) : list float :=
  List.concat (List.map (divisors corrector nuisances) (bins self)).

End PhotonJet.

(** ** [strtod] and [std::stod]

    [std::stod] hands the text to the C library's [strtod] (C locale) and
    throws [invalid_argument] when no conversion was performed and
    [out_of_range] when [errno] is [ERANGE]. The subject sequence is: white
    space, a sign, then a decimal or hexadecimal number, [inf], [infinity]
    or [nan] with an optional bracketed tail. *)

Module Strtod.

Local Open Scope Z_scope.

Definition code (c : ascii) : Z := Z.of_nat (nat_of_ascii c).

(** [isspace] in the C locale: space, and \t \n \v \f \r *)
Definition isspace (c : ascii) : bool :=
  (code c =? 32) || ((9 <=? code c) && (code c <=? 13)).

Definition digit (c : ascii) : option Z :=
  if (48 <=? code c) && (code c <=? 57) then Some (code c - 48) else None.

Definition xdigit (c : ascii) : option Z :=
  if (48 <=? code c) && (code c <=? 57) then Some (code c - 48)
  else if (97 <=? code c) && (code c <=? 102) then Some (code c - 87)
  else if (65 <=? code c) && (code c <=? 70) then Some (code c - 55)
  else None.

(** [tolower] in the C locale *)
Definition tolower (c : ascii) : ascii :=
  if (65 <=? code c) && (code c <=? 90) then ascii_of_nat (nat_of_ascii c + 32)
  else c.

(** characters allowed between the parentheses of [nan(...)] *)
Definition nchar (c : ascii) : bool :=
  ((48 <=? code c) && (code c <=? 57))
  || ((97 <=? code c) && (code c <=? 122))
  || ((65 <=? code c) && (code c <=? 90))
  || (code c =? 95).

Fixpoint skip_space (s : string) : string :=
  match s with
  | String c s' => if isspace c then skip_space s' else s
  | EmptyString => s
  end.

(** Reads digits of the given radix: the number read so far, how many
    digits were read, and what is left. *)
Fixpoint read_digits (radix : Z) (dig : ascii -> option Z) (s : string)
  (acc : Z) (count : Z) : Z * Z * string :=
  match s with
  | String c s' =>
      match dig c with
      | Some d => read_digits radix dig s' (acc * radix + d) (count + 1)
      | None => (acc, count, s)
      end
  | EmptyString => (acc, count, s)
  end.

(** Case-insensitive match of a lower-case keyword at the head of [s]. *)
Fixpoint keyword (kw s : string) : option string :=
  match kw, s with
  | EmptyString, _ => Some s
  | String k kw', String c s' =>
      if Ascii.eqb k (tolower c) then keyword kw' s' else None
  | String _ _, EmptyString => None
  end.

Definition read_sign (s : string) : bool * string :=
  match s with
  | String "-" s' => (true, s')
  | String "+" s' => (false, s')
  | _ => (false, s)
  end.

(** The exponent part: marker ([e] or [p]), optional sign, at least one
    decimal digit; without a digit nothing is consumed. *)
Definition read_exponent (marker : ascii) (s : string) : Z * string :=
  match s with
  | String c s' =>
      if Ascii.eqb marker (tolower c) then
        let (neg, s'') := read_sign s' in
        let '(e, n, rest) := read_digits 10 digit s'' 0 0 in
        if n =? 0 then (0, s) else ((if neg then - e else e), rest)
      else (0, s)
  | EmptyString => (0, s)
  end.

(** What the subject sequence denotes, before rounding:
    [mant * radix ^ exp], an infinity, or a NaN. *)
Inductive number :=
| Finite (neg : bool) (mant : Z) (radix : Z) (exp : Z)
| Infinite (neg : bool)
| NotANumber.

(** Digits with an optional radix point, then an optional exponent.
    [scale] is the weight of one fractional digit in exponent units
    (1 for decimal, 4 for hexadecimal digits with a binary exponent). *)
Definition read_mantissa (radix : Z) (dig : ascii -> option Z) (s : string)
  : Z * Z * Z * string :=
  let '(m1, n1, r1) := read_digits radix dig s 0 0 in
  match r1 with
  | String "." r =>
      let '(m2, n2, r2) := read_digits radix dig r m1 0 in
      (m2, n1 + n2, n2, (if n1 + n2 =? 0 then s else r2))
  | _ => (m1, n1, 0, r1)
  end.

Definition read_decimal (neg : bool) (s : string) : option (number * string) :=
  let '(m, n, nfrac, r) := read_mantissa 10 digit s in
  if n =? 0 then None
  else
    let (e, rest) := read_exponent "e" r in
    Some (Finite neg m 10 (e - nfrac), rest).

Definition read_hexadecimal (neg : bool) (s : string) : option (number * string) :=
  let '(m, n, nfrac, r) := read_mantissa 16 xdigit s in
  if n =? 0 then None
  else
    let (e, rest) := read_exponent "p" r in
    Some (Finite neg m 2 (e - 4 * nfrac), rest).

Fixpoint read_nchars (s : string) : string :=
  match s with
  | String c s' => if nchar c then read_nchars s' else s
  | EmptyString => s
  end.

Definition read_nan (s : string) : string :=
  match s with
  | String "(" s' =>
      match read_nchars s' with
      | String ")" rest => rest
      | _ => s
      end
  | _ => s
  end.

(** [strtod]: the value denoted by the longest prefix of [s] that has the
    expected form, and the rest of the string ([*endptr]); [None] when no
    conversion can be performed. *)
Definition strtod (s : string) : option (number * string) :=
  let (neg, s1) := read_sign (skip_space s) in
  match keyword "inf" s1 with
  | Some r =>
      match keyword "inity" r with
      | Some r' => Some (Infinite neg, r')
      | None => Some (Infinite neg, r)
      end
  | None =>
  match keyword "nan" s1 with
  | Some r => Some (NotANumber, read_nan r)
  | None =>
  match keyword "0x" s1 with
  | Some r =>
      match read_hexadecimal neg r with
      | Some res => Some res
      | None => read_decimal neg s1
      end
  | None => read_decimal neg s1
  end end end.

(** Rounding to the nearest binary64 number, ties to even. *)
Definition round (neg : bool) (mant radix exp : Z) : spec_float :=
  match mant with
  | Zpos m =>
      if 0 <=? exp then
        binary_round prec emax neg (m * Z.to_pos (radix ^ exp)) 0
      else
        let '(q, e, l) :=
          SFdiv_core_binary prec emax (Zpos m) 0 (radix ^ (- exp)) 0 in
        binary_round_aux prec emax neg q e l
  | _ => S754_zero neg
  end.

Definition to_spec (x : number) : spec_float :=
  match x with
  | Finite neg mant radix exp => round neg mant radix exp
  | Infinite neg => S754_infinity neg
  | NotANumber => S754_nan
  end.

Definition to_double (x : number) : float := SF2Prim (to_spec x).

Definition Qpow (radix exp : Z) : Q := Qpower (inject_Z radix) exp.

(** The value underflows: it is not zero and is smaller in magnitude than
    the smallest normal double, 2^-1022. *)
Definition underflows (mant radix exp : Z) : bool :=
  if 0 <? mant
  then negb (Qle_bool (Qpow 2 (-1022)) (inject_Z mant * Qpow radix exp))
  else false.

Inductive exception :=
| invalid_argument
| out_of_range
| runtime_error (message : string).

Section Errno.

(** Whether [errno] is [ERANGE] after a value that underflows is left to the
    implementation by the C standard. glibc sets it for some of the values
    below 2^-1022 and not for others: for 2.2250738585072012e-308, which
    rounds to 2^-1022, and not for 0x0.fffffffffffff4p-1022, which rounds to
    the largest subnormal number. The choice is a parameter of what
    follows. *)
Variable underflow_erange : number -> bool.

(** [errno == ERANGE] after the call: the rounded value overflows, or the
    value underflows and the implementation reports it. *)
Definition erange (x : number) : bool :=
  match x with
  | Finite neg mant radix exp =>
      match round neg mant radix exp with
      | S754_infinity _ => true
      | _ => if underflows mant radix exp then underflow_erange x else false
      end
  | _ => false
  end.

(** [std::stod(str)] *)
Definition stod (str : string) : exception + float :=
  match strtod str with
  | None => inl invalid_argument
  | Some (x, _) => if erange x then inl out_of_range else inr (to_double x)
  end.

End Errno.

(** The two extreme choices: [ERANGE] for every value that underflows, and
    for none. *)
Definition report_underflow : number -> bool := fun _ => true.
Definition accept_underflow : number -> bool := fun _ => false.

End Strtod.

(** ** The fit driver (src/prog/fit.cpp) *)

Module Fit.

Import Strtod.
Local Open Scope string_scope.

(** *** Pieces of [std::string] and Boost used by [main] *)

(** [s.find(c, pos)]: the first position at or after [pos] holding [c];
    [None] is [npos]. *)
Fixpoint find (c : ascii) (s : string) (pos : nat) : option nat :=
  match s with
  | EmptyString => None
  | String a s' =>
      match pos with
      | O => if Ascii.eqb a c then Some O else option_map S (find c s' O)
      | S pos' => option_map S (find c s' pos')
      end
  end.

(** [s.substr(pos, len)], [len = None] being the default [npos]: throws
    when [pos] is beyond the end, and stops at the end of [s]. *)
Definition substr (s : string) (pos : nat) (len : option nat)
  : exception + string :=
  if (String.length s <? pos)%nat then inl out_of_range
  else
    inr (substring pos
           (match len with Some n => n | None => (String.length s - pos)%nat end) s).

(** [boost::to_lower] on a [std::string] *)
Fixpoint to_lower (s : string) : string :=
  match s with
  | EmptyString => EmptyString
  | String c s' => String (tolower c) (to_lower s')
  end.

(** [std::to_string(unsigned)] *)
Definition to_string (i : nat) : string :=
  NilEmpty.string_of_uint (Nat.to_uint i).

Definition quote : string := String (ascii_of_nat 34) EmptyString.
Definition newline : string := String (ascii_of_nat 10) EmptyString.

(** *** Exceptions inside a [try] block *)

Definition bind_exc {A B} (c : exception + A) (k : A -> exception + B)
  : exception + B :=
  match c with
  | inl e => inl e
  | inr a => k a
  end.

Notation "x <- c ;; k" := (bind_exc c (fun x => k))
  (at level 100, c at next level, right associativity).

(** How a stretch of [main] ends: [main] returns, an exception leaves
    [main], or control goes on with a value. *)
Inductive outcome (A : Type) :=
| Return (status : Z) (cerr : string)
| Terminate (e : exception)
| Proceed (a : A).
Arguments Return {A} status cerr.
Arguments Terminate {A} e.
Arguments Proceed {A} a.

Definition EXIT_SUCCESS : Z := 0.
Definition EXIT_FAILURE : Z := 1.

(** *** The constraint option *)

Definition parse_failure (optionText : string) : string :=
  "Failed to parse constraint " ++ quote ++ optionText ++ quote ++ "." ++ newline.

Section Stod.

(** the parameter of [std::stod], see [Strtod.erange] *)
Variable underflow_erange : number -> bool.

Local Abbreviation stod := (Strtod.stod underflow_erange).

(** the body of the [try] block *)
Definition read_numbers (optionText : string) (commaPos1 : nat)
  (commaPos2 : option nat) : exception + (float * float * float) :=
  match commaPos2 with
  | None =>
      let ptRef := 208%float in
      t <- substr optionText 0 (Some commaPos1) ;;
      targetCorr <- stod t ;;
      u <- substr optionText (commaPos1 + 1) None ;;
      relUnc <- stod u ;;
      inr (ptRef, targetCorr, relUnc)
  | Some commaPos2 =>
      p <- substr optionText 0 (Some commaPos1) ;;
      ptRef <- stod p ;;
      t <- substr optionText (commaPos1 + 1) (Some commaPos2) ;;
      targetCorr <- stod t ;;
      u <- substr optionText (commaPos2 + 1) None ;;
      relUnc <- stod u ;;
      inr (ptRef, targetCorr, relUnc)
  end.

(** Lines 93-127: from the option's text to the arguments of
    [JetCorrConstraint]; only [invalid_argument] is caught. *)
Definition parse_constraint (optionText : string)
  : outcome (float * float * float) :=
  match find "," optionText 0 with
  | None => Return EXIT_FAILURE (parse_failure optionText)
  | Some commaPos1 =>
      let commaPos2 := find "," optionText (commaPos1 + 1) in
      match read_numbers optionText commaPos1 commaPos2 with
      | inr args => Proceed args
      | inl invalid_argument => Return EXIT_FAILURE (parse_failure optionText)
      | inl e => Terminate e
      end
  end.

(** *** Options and measurements *)

(** [optionsMap] after [po::notify]: [balance] and [output] have defaults,
    the others may be absent. *)
Record options := {
  help : bool;
  balance : string;
  multijet : option string;
  constraint : option string;
  output : string
}.

Inductive Method := PtBal | MPF.

Inductive measurement :=
| MultijetCrawlingBins (fileName : string) (method : Method)
    (ptLeadRange : float * float)
| JetCorrConstraint (ptRef targetCorr relUnc : float).

(** the two lines [main] writes itself; Boost's rendering of the option
    table follows them *)
Definition help_text : string :=
  "Fits for jet correction combinning multiple analyses." ++ newline
  ++ "Usage: fit [options]" ++ newline.

Definition unknown_balance (name : string) : string :=
  "Do not recognize balance variable " ++ quote ++ name ++ quote ++ "." ++ newline.

Definition no_measurements : string := "No measurements requested." ++ newline.

Section Main.

(** The constructor of [MultijetCrawlingBins] reads the named file; what
    it throws on a file it cannot use is a parameter here. *)
Variable multijet_failure : string -> option exception.

Definition add_multijet (opts : options) (useMPF : bool)
  : outcome (list measurement) :=
  match multijet opts with
  | None => Proceed []
  | Some fileName =>
      match multijet_failure fileName with
      | Some e => Terminate e
      | None =>
          Proceed [MultijetCrawlingBins fileName
                     (if useMPF then MPF else PtBal) (0%float, 1600%float)]
      end
  end.

Definition add_constraint (opts : options) (measurements : list measurement)
  : outcome (list measurement) :=
  match constraint opts with
  | None => Proceed measurements
  | Some optionText =>
      match parse_constraint optionText with
      | Return status cerr => Return status cerr
      | Terminate e => Terminate e
      | Proceed (ptRef, targetCorr, relUnc) =>
          Proceed (app measurements [JetCorrConstraint ptRef targetCorr relUnc])
      end
  end.

(** [main] up to line 138: everything that comes before the loss function
    and the minimizer are built. [Proceed] carries what the fit runs on. *)
Definition main_setup (opts : options) : outcome (bool * list measurement) :=
  if help opts then Return EXIT_FAILURE help_text
  else
    let balanceVar := to_lower (balance opts) in
    if negb (String.eqb balanceVar "mpf") && negb (String.eqb balanceVar "ptbal")
    then Return EXIT_FAILURE (unknown_balance (balance opts))
    else
      let useMPF := String.eqb balanceVar "mpf" in
      match add_multijet opts useMPF with
      | Return status cerr => Return status cerr
      | Terminate e => Terminate e
      | Proceed measurements =>
          match add_constraint opts measurements with
          | Return status cerr => Return status cerr
          | Terminate e => Terminate e
          | Proceed measurements =>
              match measurements with
              | [] => Return EXIT_FAILURE no_measurements
              | _ => Proceed (useMPF, measurements)
              end
          end
      end.

End Main.

End Stod.

(** *** The minimizer's variables (lines 160-173) *)

(** Modelled from the spec: [NuisanceDefinitions] (Nuisances.hpp is not among
    the sources) is the nuisance registry, "ordered set of unique nuisance
    names; each name <-> a zero-based index", with [GetNumParams] its size and
    [GetName] the name at an index. *)
Definition NuisanceDefinitions := list string.

Definition GetNumParams (nuisanceDefs : NuisanceDefinitions) : Z :=
  Ieee.wrap32 (Z.of_nat (List.length nuisanceDefs)).

Definition GetName (nuisanceDefs : NuisanceDefinitions) (index : nat) : string :=
  nth index nuisanceDefs "".

(** One variable of ROOT's [Minuit2Minimizer] as [main] configures it:
    [SetVariable] enters a free variable without limits under its index,
    [SetVariableLimits] bounds a variable that exists. *)
Record variable := {
  name : string;
  value : float;
  step : float;
  limits : option (float * float)
}.

Definition SetVariable (ivar : nat) (nm : string) (val stp : float)
  (minimizer : gmap nat variable) : gmap nat variable :=
  <[ivar := {| name := nm; value := val; step := stp; limits := None |}]> minimizer.

Definition SetVariableLimits (ivar : nat) (lower upper : float)
  (minimizer : gmap nat variable) : gmap nat variable :=
  match minimizer !! ivar with
  | Some v =>
      <[ivar := {| name := name v; value := value v; step := step v;
                   limits := Some (lower, upper) |}]> minimizer
  | None => minimizer
  end.

(** [for (unsigned i = from; i < to; ++i) body(i)] *)
Definition for_range {S} (from to : nat) (body : nat -> S -> S) (s : S) : S :=
  fold_left (fun s i => body i s) (seq from (to - from)) s.

Definition set_variables (nPars : Z) (nuisanceDefs : NuisanceDefinitions)
  (minimizer : gmap nat variable) : gmap nat variable :=
  let nPOI := Z.to_nat (Ieee.wrap32 (nPars - GetNumParams nuisanceDefs)) in
  let minimizer :=
    for_range 0 nPOI
      (fun i m =>
         SetVariableLimits i (-1)%float 1%float
           (SetVariable i ("p" ++ to_string i) 0%float 0.01%float m))
      minimizer in
  for_range nPOI (Z.to_nat nPars)
    (fun i m =>
       SetVariableLimits i (-5)%float 5%float
         (SetVariable i (GetName nuisanceDefs (i - nPOI)) 0%float 1%float m))
    minimizer.

End Fit.

(** ** What the specification says of a constraint string *)

Module ConstraintSpec.

Import Strtod.
Local Open Scope string_scope.

(** The comma-separated fields of a string, in order. *)
Fixpoint fields (s : string) : list string :=
  match s with
  | EmptyString => [EmptyString]
  | String c s' =>
      if Ascii.eqb c "," then EmptyString :: fields s'
      else
        match fields s' with
        | f :: fs => String c f :: fs
        | [] => [String c EmptyString]
        end
  end.

(** A field is a number when all of it is the text of one number. *)
Definition is_number (f : string) : bool :=
  match strtod f with
  | Some (_, EmptyString) => true
  | _ => false
  end.

(** The form ["[ptRef,]targetCorr,relUnc"]: two or three numbers. *)
Definition well_formed (s : string) : bool :=
  let fs := fields s in
  ((List.length fs =? 2)%nat || (List.length fs =? 3)%nat) && forallb is_number fs.

(** "1, 2, or 3 comma-separated numbers" *)
Definition decomposable (s : string) : bool :=
  let fs := fields s in
  (List.length fs <=? 3)%nat && forallb is_number fs.

Section Stod.

Variable underflow_erange : number -> bool.

Local Abbreviation stod := (Strtod.stod underflow_erange).

(** One well-formed number that [std::stod] converts. *)
Definition number_field (f : string) : Prop :=
  is_number f = true /\ exists v, stod f = inr v.

(** Reading fields in order with [std::stod]: the first exception met. *)
Fixpoint first_exception (fs : list string) : option exception :=
  match fs with
  | [] => None
  | f :: fs' =>
      match stod f with
      | inl e => Some e
      | inr _ => first_exception fs'
      end
  end.

(** Two fields give the target and the uncertainty at the default scale;
    with three or more the first three give scale, target and uncertainty. *)
Definition read_fields (fs : list string) : exception + (float * float * float) :=
  match fs with
  | [a; b] =>
      Fit.bind_exc (stod a) (fun targetCorr =>
      Fit.bind_exc (stod b) (fun relUnc =>
      inr (208%float, targetCorr, relUnc)))
  | a :: b :: c :: _ =>
      Fit.bind_exc (stod a) (fun ptRef =>
      Fit.bind_exc (stod b) (fun targetCorr =>
      Fit.bind_exc (stod c) (fun relUnc =>
      inr (ptRef, targetCorr, relUnc))))
  | _ => inl invalid_argument
  end.

End Stod.

(** A balance-variable name that is neither "PtBal" nor "MPF", whatever
    the case of its letters. *)
Definition unknown_balance_name (nm : string) : bool :=
  negb (String.eqb (Fit.to_lower nm) "ptbal") && negb (String.eqb (Fit.to_lower nm) "mpf").

(** The configuration errors of a run: unknown balance variable, malformed
    constraint, no measurement requested. *)
Definition configuration_error (opts : Fit.options) : bool :=
  unknown_balance_name (Fit.balance opts)
  || match Fit.constraint opts with
     | Some s => negb (well_formed s)
     | None => false
     end
  || match Fit.multijet opts, Fit.constraint opts with
     | None, None => true
     | _, _ => false
     end.

End ConstraintSpec.

(** ** HistMorph (include/HistMorph.hpp) *)

Module HistMorph.

Local Open Scope Q_scope.

(** The data members [central], [up], [down]. The values are taken as
    rationals: the specification states the morphing over the reals. *)
Record t := { central : list Q; up : list Q; down : list Q }.



Section Morph.

(** Modelled from the spec: [HistMorph::SmoothStep], declared in the
    header and left open by the specification ("a monotonic smooth-step
    function S on [-1,1] with S(-1)=0, S(0)=0.5, S(+1)=1"), and its
    derivative, which fixes the slopes of the linear continuation. *)
Variable SmoothStep : Q -> Q.
Variable SmoothStep' : Q -> Q.

(** [w] of the way from [a] to [b] *)
Definition blend (w a b : Q) : Q := (1 - w) * a + w * b.

(** Modelled from the spec: the body of [HistMorph::Eval] is not in the
    sources. "value(x) interpolates between (down, central) for x in
    [-1,0] and (central, up) for x in [0,1] using S as the blend weight,
    and for |x|>1 the function continues as a straight line using the
    same derivative the interpolant has at x=+-1." On [-1,0] the weight
    [2 S(x)] runs from 0 to 1, on [0,1] the weight [2 S(x) - 1] does. *)
Definition morph (c u d x : Q) : Q :=
  if negb (Qle_bool (-1) x) then
    d + 2 * SmoothStep' (-1) * (c - d) * (x + 1)
  else if Qle_bool x 0 then blend (2 * SmoothStep x) d c
  else if Qle_bool x 1 then blend (2 * SmoothStep x - 1) c u
  else u + 2 * SmoothStep' 1 * (u - c) * (x - 1).

(** Modelled from the spec: [HistMorph::Eval(bin, x)] (body not in the
    sources) morphs the three reference values of the bin, "units (bins) are
    evaluated independently". [None] stands for an index outside a vector,
    which the precondition excludes. *)
Definition Eval (self : t) (bin : nat) (x : Q) : option Q :=
  match central self !! bin, up self !! bin, down self !! bin with
  | Some c, Some u, Some d => Some (morph c u d x)
  | _, _, _ => None
  end.

End Morph.


End HistMorph.

(** ** Notions and sample inputs used by the statements below *)

(** Infinite or NaN. *)
Definition nonfinite (x : float) : Prop := Ieee.SFnonfinite (Prim2SF x) = true.

(** A string without a comma. *)
Fixpoint no_comma (s : string) : bool :=
  match s with
  | EmptyString => true
  | String c s' => negb (Ascii.eqb c ",") && no_comma s'
  end.

(** The result of [strtod] with [t] appended to what is left. *)
Definition extend (t : string) (res : option (Strtod.number * string))
  : option (Strtod.number * string) :=
  option_map (fun '(v, r) => (v, (r ++ t)%string)) res.

(** What [main] does with the result of the [try] block. *)
Definition outcome_of (s : string) (r : Strtod.exception + (float * float * float))
  : Fit.outcome (float * float * float) :=
  match r with
  | inr args => Fit.Proceed args
  | inl Strtod.invalid_argument => Fit.Return Fit.EXIT_FAILURE (Fit.parse_failure s)
  | inl e => Fit.Terminate e
  end.

(** A constraint string [main] reports as unparsable: a single field, or,
    reading the first three fields in order, a field on which [std::stod]
    throws [invalid_argument] before any on which it throws [out_of_range]. *)
Definition unreadable (underflow_erange : Strtod.number -> bool) (s : string)
  : Prop :=
  List.length (ConstraintSpec.fields s) = 1%nat
  \/ ConstraintSpec.first_exception underflow_erange
       (firstn 3 (ConstraintSpec.fields s))
     = Some Strtod.invalid_argument.

(** The multijet input, when one is requested, can be loaded. *)
Definition multijet_loads (multijet_failure : string -> option Strtod.exception)
  (opts : Fit.options) : Prop :=
  match Fit.multijet opts with
  | Some f => multijet_failure f = None
  | None => True
  end.

(** A minimizer variable starting at 0 with the given step and limits. *)
Definition configured (nm : string) (stp lower upper : float) : Fit.variable :=
  {| Fit.name := nm; Fit.value := 0%float; Fit.step := stp;
     Fit.limits := Some (lower, upper) |}.

Module Sample.

Local Open Scope float_scope.

(** a file holding one graph of one point, under every name *)
Definition one_point (x y ey : float) : PhotonJet.TFile :=
  PhotonJet.Opened
    (fun _ => Some [ {| PhotonJet.gx := x; PhotonJet.gy := y; PhotonJet.gey := ey |} ]).

Definition measurement_of (x y ey : float) : PhotonJet.t :=
  {| PhotonJet.bins := [ PhotonJet.bin_of_point
       {| PhotonJet.gx := x; PhotonJet.gy := y; PhotonJet.gey := ey |} ] |}.

Definition no_shift : PhotonJet.Nuisances := {| PhotonJet.photonScale := 0 |}.
Definition full_shift : PhotonJet.Nuisances := {| PhotonJet.photonScale := -1 |}.

Definition unit_corr : PhotonJet.JetCorrBase := fun _ => 1.
Definition zero_corr : PhotonJet.JetCorrBase := fun _ => 0.
Definition identity_corr : PhotonJet.JetCorrBase := fun pt => pt.

Definition four_fields : Fit.options :=
  {| Fit.help := false; Fit.balance := "PtBal"; Fit.multijet := None;
     Fit.constraint := Some "1,2,3,4"%string; Fit.output := "fit.out" |}.

Definition trailing_text : Fit.options :=
  {| Fit.help := false; Fit.balance := "PtBal"; Fit.multijet := None;
     Fit.constraint := Some "1.02,0.01abc"%string; Fit.output := "fit.out" |}.

Definition bad_balance : Fit.options :=
  {| Fit.help := false; Fit.balance := "Pt"; Fit.multijet := None;
     Fit.constraint := Some "1.02,0.01"%string; Fit.output := "fit.out" |}.



End Sample.


(** ** Notions and sample inputs of the further properties *)

Definition SFisnan (f : spec_float) : bool :=
  match f with S754_nan => true | _ => false end.

(** One of the values a bin's term is computed from is NaN. *)
Definition nan_input (c : PhotonJet.JetCorrBase) (n : PhotonJet.Nuisances)
  (bin : PhotonJet.PtBin) : bool :=
  is_nan (PhotonJet.balanceRatio bin) || is_nan (PhotonJet.unc2 bin)
  || is_nan (c (PhotonJet.ptPhoton bin * (1 + PhotonJet.photonScale n))%float).

(** The corrected balance ratio of the bin is finite and is the inverse
    correction, bit for bit, and the bin's [unc2] is positive. *)
Definition agrees (c : PhotonJet.JetCorrBase) (n : PhotonJet.Nuisances)
  (bin : PhotonJet.PtBin) : Prop :=
  (PhotonJet.balanceRatio bin / (1 + PhotonJet.photonScale n)
   = 1 / c (PhotonJet.ptPhoton bin * (1 + PhotonJet.photonScale n)))%float
  /\ is_finite (PhotonJet.balanceRatio bin / (1 + PhotonJet.photonScale n))%float
     = true
  /\ (0 <? PhotonJet.unc2 bin)%float = true.

(** [nPOI] as [main] computes it. *)
Definition nPOI_of (nPars : Z) (defs : Fit.NuisanceDefinitions) : nat :=
  Z.to_nat (Ieee.wrap32 (nPars - Fit.GetNumParams defs)).

Module Inputs.

Local Open Scope float_scope.

(** 1 at pt = 100 and 7 elsewhere *)
Definition kinked_corr : PhotonJet.JetCorrBase :=
  fun pt => if (pt =? 100) then 1 else 7.

Definition nan_corr : PhotonJet.JetCorrBase := fun _ => nan.

Definition point (x y ey : float) : PhotonJet.GraphPoint :=
  {| PhotonJet.gx := x; PhotonJet.gy := y; PhotonJet.gey := ey |}.

(** a file holding one graph of two points, under every name *)
Definition two_points : PhotonJet.TFile :=
  PhotonJet.Opened (fun _ => Some [point 50 0.5 0.5; point 100 1 0.5]).

Definition two_bins : PhotonJet.t :=
  {| PhotonJet.bins := [PhotonJet.bin_of_point (point 50 0.5 0.5);
                        PhotonJet.bin_of_point (point 100 1 0.5)] |}.

Definition huge_number : Fit.options :=
  {| Fit.help := false; Fit.balance := "MPF"; Fit.multijet := None;
     Fit.constraint := Some "1e999,0.01"%string; Fit.output := "fit.out" |}.

Definition registry : Fit.NuisanceDefinitions := ["scale"; "jer"]%string.

End Inputs.


(** * Properties *)

(** ** Signs and non-finite values in binary64 arithmetic *)

Section IeeeFacts.

Import Ieee.

(** Rounding keeps the sign it is given. *)
Lemma binary_round_aux_sign s m e l :
  match binary_round_aux prec emax s m e l with
  | S754_nan => True
  | S754_zero s' | S754_infinity s' | S754_finite s' _ _ => s' = s
  end.
Proof.
  unfold binary_round_aux.
  destruct (shr_fexp prec emax m e l) as [mrs' e'].
  destruct (shr_fexp prec emax _ e' loc_Exact) as [mrs'' e''].
  destruct (shr_m mrs''); try exact I; try reflexivity.
  destruct (Z.leb e'' (emax - prec)); reflexivity.
Qed.

Lemma binary_round_aux_nonneg m e l :
  SFnonneg (binary_round_aux prec emax false m e l) = true.
Proof.
  pose proof (binary_round_aux_sign false m e l) as H.
  destruct (binary_round_aux prec emax false m e l); simpl; subst; auto.
Qed.

Lemma SFmul_self_nonneg f : SFnonneg (SF64mul f f) = true.
Proof.
  destruct f as [s|s| |s m e]; simpl; try reflexivity.
  - destruct s; reflexivity.
  - destruct s; reflexivity.
  - unfold SF64mul, SFmul.
    replace (xorb s s) with false by (destruct s; reflexivity).
    apply binary_round_aux_nonneg.
Qed.

Lemma SFdiv_nonneg a b :
  SFnonneg a = true -> SFnonneg b = true -> SFnonneg (SF64div a b) = true.
Proof.
  unfold SF64div.
  destruct a as [sa|sa| |sa ma ea], b as [sb|sb| |sb mb eb]; simpl;
    intros Ha Hb; try reflexivity;
    try (apply negb_true_iff in Ha; subst sa);
    try (apply negb_true_iff in Hb; subst sb); try reflexivity.
  destruct (SFdiv_core_binary prec emax (Z.pos ma) ea (Z.pos mb) eb) as [[mz ez] lz].
  apply binary_round_aux_nonneg.
Qed.

Lemma SFadd_nonneg a b :
  SFnonneg a = true -> SFnonneg b = true -> SFnonneg (SF64add a b) = true.
Proof.
  unfold SF64add.
  destruct a as [sa|sa| |sa ma ea], b as [sb|sb| |sb mb eb]; simpl;
    intros Ha Hb; try reflexivity;
    try (apply negb_true_iff in Ha; subst sa);
    try (apply negb_true_iff in Hb; subst sb); try reflexivity.
  unfold binary_normalize. simpl. unfold binary_round.
  match goal with
  | |- context [shl_align ?a ?b ?c] => destruct (shl_align a b c) as [mz ez]
  end.
  apply binary_round_aux_nonneg.
Qed.

(** An infinity or a NaN among the operands stays in the result. *)
Lemma SFadd_nonfinite a b :
  SFnonfinite a = true \/ SFnonfinite b = true -> SFnonfinite (SF64add a b) = true.
Proof.
  unfold SF64add.
  destruct a as [sa|sa| |sa ma ea], b as [sb|sb| |sb mb eb]; simpl;
    intros [H|H]; try discriminate; try reflexivity;
    destruct sa, sb; reflexivity.
Qed.

Lemma SFsub_nonfinite a b :
  SFnonfinite a = true \/ SFnonfinite b = true -> SFnonfinite (SF64sub a b) = true.
Proof.
  unfold SF64sub.
  destruct a as [sa|sa| |sa ma ea], b as [sb|sb| |sb mb eb]; simpl;
    intros [H|H]; try discriminate; try reflexivity;
    destruct sa, sb; reflexivity.
Qed.

Lemma SFmul_self_nonfinite a :
  SFnonfinite a = true -> SFnonfinite (SF64mul a a) = true.
Proof. destruct a; simpl; intros H; try discriminate; reflexivity. Qed.

Lemma SFdiv_nonfinite_num a b :
  SFnonfinite a = true -> SFnonfinite (SF64div a b) = true.
Proof.
  destruct a as [sa|sa| |sa ma ea], b as [sb|sb| |sb mb eb]; simpl;
    intros H; try discriminate; reflexivity.
Qed.

(** Dividing by a zero never gives a finite value. *)
Lemma SFdiv_by_zero a b :
  SFzero b = true -> SFnonfinite (SF64div a b) = true.
Proof.
  destruct a as [sa|sa| |sa ma ea], b as [sb|sb| |sb mb eb]; simpl;
    intros H; try discriminate; reflexivity.
Qed.

Lemma SFcompare_refl_finite s m e :
  SFcompare (S754_finite s m e) (S754_finite s m e) = Some Eq.
Proof.
  simpl. rewrite Z.compare_refl, Pos.compare_cont_refl. destruct s; reflexivity.
Qed.

Lemma is_nan_spec x :
  is_nan x = match Prim2SF x with S754_nan => true | _ => false end.
Proof.
  unfold is_nan. rewrite FloatAxioms.eqb_spec. unfold SFeqb.
  destruct (Prim2SF x) as [s|s| |s m e];
    try (destruct s; reflexivity); try reflexivity.
  rewrite SFcompare_refl_finite. reflexivity.
Qed.

Lemma is_infinity_spec x :
  is_infinity x = match Prim2SF x with S754_infinity _ => true | _ => false end.
Proof.
  unfold is_infinity. rewrite FloatAxioms.eqb_spec, abs_spec. unfold SFeqb.
  change (Prim2SF infinity) with (S754_infinity false).
  destruct (Prim2SF x) as [s|s| |s m e]; reflexivity.
Qed.

Lemma is_finite_spec x : is_finite x = negb (SFnonfinite (Prim2SF x)).
Proof.
  unfold is_finite. rewrite is_nan_spec, is_infinity_spec.
  destruct (Prim2SF x); reflexivity.
Qed.

Lemma is_zero_spec x : is_zero x = SFzero (Prim2SF x).
Proof.
  unfold is_zero. rewrite FloatAxioms.eqb_spec. unfold SFeqb.
  change (Prim2SF 0) with (S754_zero false).
  destruct (Prim2SF x) as [s|s| |s m e]; try reflexivity; destruct s; reflexivity.
Qed.

Lemma nonneg_or_nan_leb x :
  nonneg_or_nan x -> is_nan x = true \/ (0 <=? x)%float = true.
Proof.
  unfold nonneg_or_nan. rewrite is_nan_spec, FloatAxioms.leb_spec. unfold SFleb.
  change (Prim2SF 0) with (S754_zero false).
  destruct (Prim2SF x) as [s|s| |s m e]; simpl; intros H;
    try (apply negb_true_iff in H; subst s); auto.
Qed.

End IeeeFacts.

(** ** PhotonJet *)

Section PhotonJetFacts.

Import Ieee PhotonJet.
Local Open Scope float_scope.

(** The loop of [Eval] is a left-to-right sum and gives the object back. *)
Lemma for_each_run {A} (l : list A) (f : float -> A -> float) acc self :
  for_each l (fun a chi2 => ret (f chi2 a)) acc self = (fold_left f l acc, self).
Proof.
  revert acc; induction l as [|a l IH]; intros acc; simpl; [reflexivity|].
  unfold bind at 1. unfold ret at 1. apply IH.
Qed.

Lemma Eval_method_run c n self :
  Eval_method c n self
  = (fold_left (fun chi2 bin => chi2 + term c n bin) (bins self) 0, self).
Proof. unfold Eval_method, bind, read_bins. apply for_each_run. Qed.

Lemma Eval_fold c n self :
  Eval self c n = fold_left (fun chi2 bin => chi2 + term c n bin) (bins self) 0.
Proof. unfold Eval. rewrite Eval_method_run. reflexivity. Qed.

Lemma pow2_nonneg x : nonneg_or_nan (pow2 x).
Proof. unfold nonneg_or_nan, pow2. rewrite mul_spec. apply SFmul_self_nonneg. Qed.

Lemma term_nonneg c n bin :
  nonneg_or_nan (unc2 bin) -> nonneg_or_nan (term c n bin).
Proof.
  unfold nonneg_or_nan, term. intros H. rewrite div_spec.
  apply SFdiv_nonneg; [apply pow2_nonneg | exact H].
Qed.

Lemma sum_nonneg (f : PtBin -> float) l acc :
  nonneg_or_nan acc -> Forall (fun b => nonneg_or_nan (f b)) l ->
  nonneg_or_nan (fold_left (fun chi2 b => chi2 + f b) l acc).
Proof.
  intros Hacc Hl; revert acc Hacc.
  induction Hl as [|b l Hb Hl IH]; intros acc Hacc; simpl; [exact Hacc|].
  apply IH. unfold nonneg_or_nan in *. rewrite add_spec. now apply SFadd_nonneg.
Qed.

Lemma sum_nonfinite (f : PtBin -> float) l acc :
  nonfinite acc \/ Exists (fun b => nonfinite (f b)) l ->
  nonfinite (fold_left (fun chi2 b => chi2 + f b) l acc).
Proof.
  revert acc; induction l as [|b l IH]; intros acc H; simpl.
  - destruct H as [H|H]; [exact H | inversion H].
  - apply IH. destruct H as [H|H].
    + left. unfold nonfinite in *. rewrite add_spec. apply SFadd_nonfinite; auto.
    + inversion H; subst.
      * left. unfold nonfinite in *. rewrite add_spec. apply SFadd_nonfinite; auto.
      * right; assumption.
Qed.

Lemma term_zero_unc2 c n bin :
  is_zero (unc2 bin) = true -> nonfinite (term c n bin).
Proof.
  rewrite is_zero_spec. intros H. unfold nonfinite, term. rewrite div_spec.
  now apply SFdiv_by_zero.
Qed.

Lemma term_zero_corr c n bin :
  is_zero (c (ptPhoton bin * (1 + photonScale n))) = true -> nonfinite (term c n bin).
Proof.
  rewrite is_zero_spec. intros H. unfold nonfinite, term, pow2.
  rewrite div_spec. apply SFdiv_nonfinite_num.
  rewrite mul_spec. apply SFmul_self_nonfinite.
  rewrite sub_spec. apply SFsub_nonfinite. right.
  rewrite div_spec. now apply SFdiv_by_zero.
Qed.

(** The constructor stores squares in [unc2]. *)
Lemma make_bins_nonneg fileName inputFile method m :
  make fileName inputFile method = Constructed m ->
  Forall (fun b => nonneg_or_nan (unc2 b)) (bins m).
Proof.
  unfold make. destruct inputFile as [|get]; [discriminate|].
  destruct (get (graphName method)) as [g|]; [|discriminate].
  intros [= <-]. simpl.
  induction g as [|p g IH]; constructor; [apply pow2_nonneg | exact IH].
Qed.

(** C1, as the code has it: [Eval] is a total function and saturates nothing.
    A bin whose squared uncertainty [unc2] is zero, or whose correction factor
    is zero at the bin's rescaled photon pt, makes the value returned by
    [Eval] infinite or NaN, whatever the other bins, the corrector and the
    nuisances are. *)
Theorem PhotonJet_Eval_no_saturation (self : t) (corrector : JetCorrBase)
  (nuisances : Nuisances) :
  Exists (fun bin =>
            is_zero (unc2 bin) = true
            \/ is_zero (corrector (ptPhoton bin * (1 + photonScale nuisances))) = true)
         (bins self) ->
  is_finite (Eval self corrector nuisances) = false.
Proof.
  intros H. rewrite is_finite_spec, Eval_fold.
  apply negb_false_iff. apply sum_nonfinite. right.
  induction H as [b l [Hb|Hb]|b l _ IH];
    [left; now apply term_zero_unc2 | left; now apply term_zero_corr | right; exact IH].
Qed.

Lemma PhotonJet_Eval_no_saturation_witness :
  is_finite (Eval (Sample.measurement_of 100 0.5 0) Sample.unit_corr Sample.no_shift)
  = false.
Proof.
  apply (PhotonJet_Eval_no_saturation
           (Sample.measurement_of 100 0.5 0) Sample.unit_corr Sample.no_shift).
  apply Exists_cons_hd. left. reflexivity.
Defined.

(** C1 fails as stated: with the finite nuisance value 0, a point of zero
    error and a corrector that returns 0 each make [Eval] return [infinity]. *)
Lemma PhotonJet_Eval_infinite :
  is_finite (photonScale Sample.no_shift) = true
  /\ Eval (Sample.measurement_of 100 0.5 0) Sample.unit_corr Sample.no_shift
     = infinity
  /\ Eval (Sample.measurement_of 100 0.5 0.5) Sample.zero_corr Sample.no_shift
     = infinity
  /\ is_finite infinity = false.
Proof. repeat split; vm_compute; reflexivity. Qed.

(** C5: a measurement without bins has dimension 0 and evaluates to 0 for
    every corrector and nuisance vector; the evaluation performs no division
    and hands the object back. *)
Theorem PhotonJet_empty (self : t) (corrector : JetCorrBase) (nuisances : Nuisances) :
  bins self = [] ->
  GetDim self = 0%Z
  /\ Eval_method corrector nuisances self = (0, self)
  /\ Eval self corrector nuisances = 0
  /\ Eval_divisors self corrector nuisances = [].
Proof.
  intros H. unfold GetDim, Eval, Eval_divisors.
  rewrite Eval_method_run, H. repeat split.
Qed.

Lemma PhotonJet_empty_witness :
  GetDim {| bins := [] |} = 0%Z
  /\ Eval_method Sample.unit_corr Sample.full_shift {| bins := [] |}
     = (0, {| bins := [] |})
  /\ Eval {| bins := [] |} Sample.unit_corr Sample.full_shift = 0
  /\ Eval_divisors {| bins := [] |} Sample.unit_corr Sample.full_shift = [].
Proof.
  apply (PhotonJet_empty {| bins := [] |} Sample.unit_corr Sample.full_shift).
  reflexivity.
Defined.

(** C7, as the code has it: for a measurement built by the constructor,
    [Eval] returns NaN or a value that is at least 0, infinity included. *)
Theorem PhotonJet_Eval_nonneg_or_nan fileName inputFile method (self : t)
  (corrector : JetCorrBase) (nuisances : Nuisances) :
  make fileName inputFile method = Constructed self ->
  is_nan (Eval self corrector nuisances) = true
  \/ (0 <=? Eval self corrector nuisances) = true.
Proof.
  intros Hm. apply nonneg_or_nan_leb. rewrite Eval_fold.
  apply sum_nonneg.
  - reflexivity.
  - eapply Forall_impl; [apply (make_bins_nonneg _ _ _ _ Hm)|].
    intros b Hb. now apply term_nonneg.
Qed.

Lemma PhotonJet_Eval_nonneg_or_nan_witness :
  is_nan (Eval (Sample.measurement_of 100 0.5 0.5) Sample.unit_corr Sample.no_shift)
  = true
  \/ (0 <=? Eval (Sample.measurement_of 100 0.5 0.5) Sample.unit_corr Sample.no_shift)
     = true.
Proof.
  apply (PhotonJet_Eval_nonneg_or_nan "in.root" (Sample.one_point 100 0.5 0.5) PtBal).
  reflexivity.
Defined.

(** C7 fails as stated: a constructed measurement evaluates to NaN, which is
    not a number at least 0, at a point of zero error that the correction
    matches, and at a regular point with the photon scale shifted by -1. *)
Lemma PhotonJet_Eval_nan :
  make "in.root" (Sample.one_point 100 1 0.5) PtBal
  = Constructed (Sample.measurement_of 100 1 0.5)
  /\ Eval (Sample.measurement_of 100 1 0.5) Sample.identity_corr Sample.full_shift
     = nan
  /\ Eval (Sample.measurement_of 100 1 0) Sample.unit_corr Sample.no_shift = nan
  /\ (0 <=? nan) = false.
Proof. repeat split; vm_compute; reflexivity. Qed.


End PhotonJetFacts.

(** ** [strtod] stops at a comma *)

Section StrtodFacts.

Import Strtod.
Local Open Scope string_scope.

(** The C library's choice on underflow; what follows holds for each. *)
Variable policy : number -> bool.

(** what follows the text read: a comma and anything *)
Variable y : string.
Local Abbreviation t := (String "," y).

Lemma skip_space_comma x : skip_space (x ++ t) = skip_space x ++ t.
Proof.
  induction x as [|c x IH]; simpl; [reflexivity|].
  destruct (isspace c); [exact IH | reflexivity].
Qed.

Lemma read_sign_comma x :
  read_sign (x ++ t) = (fst (read_sign x), snd (read_sign x) ++ t).
Proof.
  destruct x as [|c x]; [reflexivity|].
  simpl. destruct c as [[] [] [] [] [] [] [] []]; reflexivity.
Qed.

Lemma read_digits_comma radix dig x acc n :
  dig ","%char = None ->
  read_digits radix dig (x ++ t) acc n
  = let '(a, k, r) := read_digits radix dig x acc n in (a, k, r ++ t).
Proof.
  intros Hd. revert acc n; induction x as [|c x IH]; intros acc n; simpl.
  - rewrite Hd. reflexivity.
  - destruct (dig c); [apply IH | reflexivity].
Qed.

Lemma keyword_comma kw x :
  no_comma kw = true ->
  keyword kw (x ++ t) = option_map (fun r => r ++ t) (keyword kw x).
Proof.
  revert x; induction kw as [|k kw IH]; intros x Hk; simpl.
  - reflexivity.
  - simpl in Hk. apply andb_true_iff in Hk as [Hk1 Hk2].
    destruct x as [|c x]; simpl.
    + apply negb_true_iff in Hk1.
      change (tolower ",") with ","%char. rewrite Hk1. reflexivity.
    + destruct (Ascii.eqb k (tolower c)); [now apply IH | reflexivity].
Qed.

Lemma read_exponent_comma marker x :
  Ascii.eqb marker "," = false ->
  read_exponent marker (x ++ t)
  = (fst (read_exponent marker x), snd (read_exponent marker x) ++ t).
Proof.
  intros Hm. destruct x as [|c x]; simpl.
  - change (tolower ",") with ","%char. rewrite Hm. reflexivity.
  - destruct (Ascii.eqb marker (tolower c)); [|reflexivity].
    rewrite read_sign_comma. destruct (read_sign x) as [neg s'']. simpl.
    rewrite read_digits_comma by reflexivity.
    destruct (read_digits 10 digit s'' 0 0) as [[e n] rest].
    destruct (n =? 0)%Z; reflexivity.
Qed.

Lemma read_mantissa_comma radix dig x :
  dig ","%char = None ->
  read_mantissa radix dig (x ++ t)
  = let '(m, n, nf, r) := read_mantissa radix dig x in (m, n, nf, r ++ t).
Proof.
  intros Hd. unfold read_mantissa. rewrite read_digits_comma by exact Hd.
  destruct (read_digits radix dig x 0 0) as [[m1 n1] r1].
  destruct r1 as [|c r]; simpl.
  - reflexivity.
  - destruct c as [[] [] [] [] [] [] [] []]; try reflexivity.
    rewrite read_digits_comma by exact Hd.
    destruct (read_digits radix dig r m1 0) as [[m2 n2] r2].
    destruct (n1 + n2 =? 0)%Z; reflexivity.
Qed.

Lemma read_decimal_comma neg x :
  read_decimal neg (x ++ t) = extend t (read_decimal neg x).
Proof.
  unfold read_decimal. rewrite read_mantissa_comma by reflexivity.
  destruct (read_mantissa 10 digit x) as [[[m n] nf] r].
  destruct (n =? 0)%Z; [reflexivity|].
  rewrite read_exponent_comma by reflexivity.
  destruct (read_exponent "e" r); reflexivity.
Qed.

Lemma read_hexadecimal_comma neg x :
  read_hexadecimal neg (x ++ t) = extend t (read_hexadecimal neg x).
Proof.
  unfold read_hexadecimal. rewrite read_mantissa_comma by reflexivity.
  destruct (read_mantissa 16 xdigit x) as [[[m n] nf] r].
  destruct (n =? 0)%Z; [reflexivity|].
  rewrite read_exponent_comma by reflexivity.
  destruct (read_exponent "p" r); reflexivity.
Qed.

Lemma read_nchars_comma x : read_nchars (x ++ t) = read_nchars x ++ t.
Proof.
  induction x as [|c x IH]; simpl; [reflexivity|].
  destruct (nchar c); [exact IH | reflexivity].
Qed.

Lemma read_nan_comma x : read_nan (x ++ t) = read_nan x ++ t.
Proof.
  destruct x as [|c x]; [reflexivity|]. simpl.
  destruct c as [[] [] [] [] [] [] [] []]; try reflexivity.
  rewrite read_nchars_comma.
  destruct (read_nchars x) as [|c' r]; [reflexivity|]. simpl.
  destruct c' as [[] [] [] [] [] [] [] []]; reflexivity.
Qed.

Lemma strtod_comma x : strtod (x ++ t) = extend t (strtod x).
Proof.
  unfold strtod. rewrite skip_space_comma, read_sign_comma.
  destruct (read_sign (skip_space x)) as [neg s1]. cbn [fst snd].
  rewrite !keyword_comma by reflexivity.
  destruct (keyword "inf" s1) as [r|]; cbn [option_map].
  { rewrite keyword_comma by reflexivity.
    destruct (keyword "inity" r); reflexivity. }
  destruct (keyword "nan" s1) as [r|]; cbn [option_map].
  { rewrite read_nan_comma. reflexivity. }
  destruct (keyword "0x" s1) as [r|]; cbn [option_map].
  - rewrite read_hexadecimal_comma.
    destruct (read_hexadecimal neg r) as [[v r']|]; cbn [extend option_map];
      [reflexivity|].
    apply read_decimal_comma.
  - apply read_decimal_comma.
Qed.

(** [std::stod] gives the same on a text and on the text followed by a comma
    and more: passing a length that runs past the field does no harm. *)
Lemma stod_comma x : stod policy (x ++ t) = stod policy x.
Proof.
  unfold stod. rewrite strtod_comma.
  destruct (strtod x) as [[v r]|]; reflexivity.
Qed.

End StrtodFacts.

(** ** The constraint option *)

Section ConstraintFacts.

Import Strtod Fit ConstraintSpec.
Local Open Scope string_scope.

(** The C library's choice on underflow; what follows holds for each. *)
Variable policy : number -> bool.

Lemma fields_nonempty s : fields s <> [].
Proof.
  destruct s as [|c s]; simpl; [discriminate|].
  destruct (Ascii.eqb c ","); [discriminate|].
  destruct (fields s); discriminate.
Qed.

Lemma find_none_fields s : find "," s 0 = None -> fields s = [s].
Proof.
  induction s as [|c s IH]; simpl; [reflexivity|].
  destruct (Ascii.eqb c ","); [discriminate|].
  destruct (find "," s 0); [discriminate|].
  intros _. rewrite IH by reflexivity. reflexivity.
Qed.

Lemma find_some_fields s n :
  find "," s 0 = Some n ->
  exists a r, s = a ++ String "," r /\ String.length a = n /\ fields s = a :: fields r.
Proof.
  revert n; induction s as [|c s IH]; simpl; intros n; [discriminate|].
  destruct (Ascii.eqb c ",") eqn:Hc.
  - intros [= <-]. apply Ascii.eqb_eq in Hc. subst c.
    exists "", s. auto.
  - destruct (find "," s 0) as [k|]; [|discriminate].
    intros [= <-]. destruct (IH k eq_refl) as (a & r & -> & <- & Hf).
    exists (String c a), r. rewrite Hf. auto.
Qed.

Lemma find_after a r c :
  find c (a ++ String "," r) (String.length a + 1)
  = option_map (fun k => (String.length a + 1 + k)%nat) (find c r 0).
Proof.
  induction a as [|x a IH]; simpl.
  - destruct (find c r 0); reflexivity.
  - rewrite IH. destruct (find c r 0); reflexivity.
Qed.

Lemma substring_prefix a t : substring 0 (String.length a) (a ++ t) = a.
Proof.
  induction a as [|x a IH]; simpl; [destruct t; reflexivity|].
  now rewrite IH.
Qed.

Lemma substring_skip a c r m :
  substring (String.length a + 1) m (a ++ String c r) = substring 0 m r.
Proof. induction a as [|x a IH]; simpl; [reflexivity | exact IH]. Qed.

Lemma substring_all r : substring 0 (String.length r) r = r.
Proof. induction r as [|x r IH]; simpl; [reflexivity | now rewrite IH]. Qed.

(** A length that runs past the comma takes the field, the comma and more. *)
Lemma substring_beyond b r n :
  exists z,
    substring 0 (String.length b + 1 + n) (b ++ String "," r) = b ++ String "," z.
Proof.
  induction b as [|x b IH]; simpl.
  - eexists; reflexivity.
  - destruct IH as [z ->]. eexists; reflexivity.
Qed.

Lemma length_append a b :
  String.length (a ++ b) = (String.length a + String.length b)%nat.
Proof. induction a as [|x a IH]; simpl; [reflexivity | now rewrite IH]. Qed.

Lemma stod_first_field s : stod policy s = stod policy (hd "" (fields s)).
Proof.
  destruct (find "," s 0) as [n|] eqn:Hf.
  - destruct (find_some_fields s n Hf) as (a & r & -> & _ & ->). simpl.
    apply stod_comma.
  - rewrite (find_none_fields s Hf). reflexivity.
Qed.

Lemma substr_in s pos len :
  (pos <= String.length s)%nat ->
  substr s pos len
  = inr (substring pos
           (match len with Some n => n | None => (String.length s - pos)%nat end) s).
Proof.
  intros H. unfold substr.
  destruct (Nat.ltb_spec (String.length s) pos); [lia | reflexivity].
Qed.

(** The [try] block reads the comma-separated fields of the option. *)
Lemma read_numbers_fields s commaPos1 :
  find "," s 0 = Some commaPos1 ->
  read_numbers policy s commaPos1 (find "," s (commaPos1 + 1))
  = read_fields policy (fields s).
Proof.
  intros H1. destruct (find_some_fields s _ H1) as (a & r1 & -> & <- & ->).
  rewrite find_after. unfold read_numbers.
  assert (Hs : forall b r2 m,
             substring (String.length a + 1 + String.length b + 1) m
               (a ++ String "," (b ++ String "," r2)) = substring 0 m r2).
  { intros b r2 m. clear.
    replace (String.length a + 1 + String.length b + 1)%nat
      with (String.length a + 1 + (String.length b + 1))%nat by lia.
    induction a as [|x a IH]; simpl; [apply substring_skip | exact IH]. }
  destruct (find "," r1 0) as [k|] eqn:H2; cbn [option_map].
  - destruct (find_some_fields r1 _ H2) as (b & r2 & -> & <- & ->).
    rewrite !substr_in
      by (rewrite length_append; simpl; rewrite length_append; simpl; lia).
    rewrite substring_prefix, substring_skip, Hs.
    destruct (substring_beyond b r2 (String.length a)) as [z Hz].
    replace (String.length a + 1 + String.length b)%nat
      with (String.length b + 1 + String.length a)%nat by lia.
    rewrite Hz. cbn [bind_exc]. rewrite stod_comma.
    replace (String.length (a ++ String "," (b ++ String "," r2))
             - (String.length b + 1 + String.length a + 1))%nat
      with (String.length r2)
      by (rewrite length_append; simpl; rewrite length_append; simpl; lia).
    rewrite substring_all. cbn [bind_exc]. rewrite (stod_first_field r2).
    pose proof (fields_nonempty r2) as Hne.
    destruct (fields r2) as [|c rest]; [contradiction|]. reflexivity.
  - rewrite (find_none_fields r1 H2).
    rewrite !substr_in by (rewrite length_append; simpl; lia).
    rewrite substring_prefix, substring_skip.
    replace (String.length (a ++ String "," r1) - (String.length a + 1))%nat
      with (String.length r1) by (rewrite length_append; simpl; lia).
    rewrite substring_all. reflexivity.
Qed.

Lemma parse_constraint_fields s :
  parse_constraint policy s = outcome_of s (read_fields policy (fields s)).
Proof.
  unfold parse_constraint. destruct (find "," s 0) as [c1|] eqn:H1.
  - rewrite (read_numbers_fields s c1 H1). reflexivity.
  - rewrite (find_none_fields s H1). reflexivity.
Qed.

Lemma outcome_of_failure s r :
  outcome_of s r = Return EXIT_FAILURE (parse_failure s) <-> r = inl invalid_argument.
Proof.
  destruct r as [[]|]; simpl; split; intros H; try discriminate; reflexivity.
Qed.

Lemma read_fields_invalid fs :
  fs <> [] ->
  read_fields policy fs = inl invalid_argument
  <-> (List.length fs = 1%nat
       \/ first_exception policy (firstn 3 fs) = Some invalid_argument).
Proof.
  intros Hne.
  destruct fs as [|a [|b [|c rest]]]; [contradiction| | |]; simpl.
  - split; auto.
  - destruct (stod policy a) as [ea|va]; simpl.
    { split; [intros [= ->]; auto | intros [[=]|[= ->]]; reflexivity]. }
    destruct (stod policy b) as [eb|vb]; simpl.
    { split; [intros [= ->]; auto | intros [[=]|[= ->]]; reflexivity]. }
    split; [discriminate | intros [[=]|[=]]].
  - destruct (stod policy a) as [ea|va]; simpl.
    { split; [intros [= ->]; auto | intros [[=]|[= ->]]; reflexivity]. }
    destruct (stod policy b) as [eb|vb]; simpl.
    { split; [intros [= ->]; auto | intros [[=]|[= ->]]; reflexivity]. }
    destruct (stod policy c) as [ec|vc]; simpl.
    { split; [intros [= ->]; auto | intros [[=]|[= ->]]; reflexivity]. }
    split; [discriminate | intros [[=]|[=]]].
Qed.

Lemma parse_failure_unreadable s :
  parse_constraint policy s = Return EXIT_FAILURE (parse_failure s)
  <-> unreadable policy s.
Proof.
  rewrite parse_constraint_fields, outcome_of_failure.
  apply read_fields_invalid, fields_nonempty.
Qed.

Lemma parse_constraint_return s status cerr :
  parse_constraint policy s = Return status cerr ->
  status = EXIT_FAILURE /\ cerr = parse_failure s.
Proof.
  unfold parse_constraint. destruct (find "," s 0).
  - destruct (read_numbers policy _ _ _) as [[]|]; intros [=]; auto.
  - intros [=]; auto.
Qed.

Lemma no_comma_fails s :
  find "," s 0 = None ->
  parse_constraint policy s = Return EXIT_FAILURE (parse_failure s).
Proof. intros H. unfold parse_constraint. now rewrite H. Qed.

Lemma main_setup_no_comma mf opts s :
  constraint opts = Some s -> find "," s 0 = None ->
  match main_setup policy mf opts with
  | Return status _ => status = EXIT_FAILURE
  | Terminate e => exists f, multijet opts = Some f /\ mf f = Some e
  | Proceed _ => False
  end.
Proof.
  intros Hc Hs. unfold main_setup.
  destruct (help opts); [reflexivity|].
  destruct (_ && _); [reflexivity|].
  unfold add_multijet, add_constraint. rewrite Hc, (no_comma_fails s Hs).
  destruct (multijet opts) as [f|]; [|reflexivity].
  destruct (mf f) as [e|] eqn:He; [eauto | reflexivity].
Qed.

Lemma strtod_none_invalid f : strtod f = None -> stod policy f = inl invalid_argument.
Proof. intros H. unfold stod. now rewrite H. Qed.

Lemma first_exception_first_bad good bad rest :
  Forall (number_field policy) good ->
  strtod bad = None ->
  first_exception policy (good ++ bad :: rest) = Some invalid_argument.
Proof.
  intros Hg Hb. induction Hg as [|g good [_ [v Hv]] _ IH]; simpl.
  - now rewrite (strtod_none_invalid bad Hb).
  - rewrite Hv. exact IH.
Qed.

Lemma read_fields_numbers fs :
  (List.length fs = 2 \/ List.length fs = 3)%nat ->
  Forall (number_field policy) fs ->
  exists ptRef targetCorr relUnc,
    read_fields policy fs = inr (ptRef, targetCorr, relUnc)
    /\ match fs with
       | [a; b] =>
           ptRef = 208%float /\ stod policy a = inr targetCorr
           /\ stod policy b = inr relUnc
       | [a; b; c] =>
           stod policy a = inr ptRef /\ stod policy b = inr targetCorr
           /\ stod policy c = inr relUnc
       | _ => False
       end.
Proof.
  intros Hl Hf.
  destruct fs as [|a [|b [|c [|d rest]]]]; simpl in Hl; try lia.
  - inversion Hf as [|? ? [_ [x Hx]] Hf1]; subst.
    inversion Hf1 as [|? ? [_ [y Hy]] _]; subst.
    exists 208%float, x, y. simpl. rewrite Hx, Hy. simpl. auto.
  - inversion Hf as [|? ? [_ [x Hx]] Hf1]; subst.
    inversion Hf1 as [|? ? [_ [y Hy]] Hf2]; subst.
    inversion Hf2 as [|? ? [_ [z Hz]] _]; subst.
    exists x, y, z. simpl. rewrite Hx, Hy, Hz. simpl. auto.
Qed.

(** Fields that are numbers or have no number at their start: either all
    are numbers, or a first one is not and only numbers come before it. *)
Lemma forallb_is_number_true fs :
  Forall (fun f => number_field policy f \/ strtod f = None) fs ->
  forallb is_number fs = true -> Forall (number_field policy) fs.
Proof.
  induction 1 as [|f fs Hf _ IH]; simpl; [constructor|].
  intros H. apply andb_prop in H as [Hn Hr].
  constructor; [|exact (IH Hr)].
  destruct Hf as [Hf|Hf]; [exact Hf|].
  unfold is_number in Hn. rewrite Hf in Hn. discriminate.
Qed.

Lemma forallb_is_number_false fs :
  Forall (fun f => number_field policy f \/ strtod f = None) fs ->
  forallb is_number fs = false ->
  exists good bad rest,
    fs = (good ++ bad :: rest)%list
    /\ Forall (number_field policy) good /\ strtod bad = None.
Proof.
  induction 1 as [|f fs Hf _ IH]; simpl; [discriminate|].
  intros H. destruct Hf as [Hf|Hf].
  - destruct Hf as [Hn Hv]. rewrite Hn in H. simpl in H.
    destruct (IH H) as (good & bad & rest & -> & Hg & Hb).
    exists (f :: good), bad, rest.
    split; [reflexivity|]. split; [|exact Hb].
    constructor; [split; [exact Hn | exact Hv] | exact Hg].
  - exists [], f, fs. split; [reflexivity|]. split; [constructor | exact Hf].
Qed.

Lemma unknown_balance_code nm :
  negb (String.eqb (to_lower nm) "mpf") && negb (String.eqb (to_lower nm) "ptbal")
  = unknown_balance_name nm.
Proof. unfold unknown_balance_name. apply andb_comm. Qed.

End ConstraintFacts.

(** ** The driver: constraint, configuration errors, minimizer variables *)

Section FitFacts.

Import Strtod Fit ConstraintSpec.
Local Open Scope string_scope.

(** The C library's choice on underflow; what follows holds for each. *)
Variable policy : number -> bool.

(** C2: "208,1.02,0.01" gives the reference scale 208, the target 1.02 and
    the relative uncertainty 0.01; "1.02,0.01" gives the default scale 208
    with the same target and uncertainty; a string without a comma is
    reported as unparsable, and [main] then returns [EXIT_FAILURE] (unless
    the multijet constructor had thrown before the option was looked at);
    the fit is not reached. *)
Theorem constraint_parsing_examples :
  parse_constraint policy "208,1.02,0.01" = Proceed (208, 1.02, 0.01)%float
  /\ parse_constraint policy "1.02,0.01" = Proceed (208, 1.02, 0.01)%float
  /\ (forall s, find "," s 0 = None ->
        parse_constraint policy s = Return EXIT_FAILURE (parse_failure s))
  /\ (forall multijet_failure opts s,
        constraint opts = Some s -> find "," s 0 = None ->
        match main_setup policy multijet_failure opts with
        | Return status _ => status = EXIT_FAILURE
        | Terminate e => exists f, multijet opts = Some f /\ multijet_failure f = Some e
        | Proceed _ => False
        end).
Proof.
  split; [vm_compute; reflexivity|].
  split; [vm_compute; reflexivity|].
  split; [exact (no_comma_fails policy) | exact (main_setup_no_comma policy)].
Qed.

(** C3, as the code has it by design: a string with a single field (no
    comma) is reported as unparsable, a lone number included, two or three
    numbers being required. Among the strings of two or three fields in
    which every field is either one whole number that [std::stod] converts
    or has no number at its start, the constraint is reported as unparsable
    exactly when the string is not made of two or three numbers, and it is
    otherwise accepted with the numbers read, the scale being the default
    208 when there are two. *)
Theorem constraint_two_or_three_numbers (s : string) :
  (List.length (fields s) = 1%nat ->
     parse_constraint policy s = Return EXIT_FAILURE (parse_failure s))
  /\ ((List.length (fields s) = 2 \/ List.length (fields s) = 3)%nat ->
      Forall (fun f => number_field policy f \/ strtod f = None) (fields s) ->
      (parse_constraint policy s = Return EXIT_FAILURE (parse_failure s)
       <-> well_formed s = false)
      /\ (well_formed s = true ->
          exists ptRef targetCorr relUnc,
            parse_constraint policy s = Proceed (ptRef, targetCorr, relUnc)
            /\ match fields s with
               | [a; b] =>
                   ptRef = 208%float /\ stod policy a = inr targetCorr
                   /\ stod policy b = inr relUnc
               | [a; b; c] =>
                   stod policy a = inr ptRef /\ stod policy b = inr targetCorr
                   /\ stod policy c = inr relUnc
               | _ => False
               end)).
Proof.
  split.
  - intros H. apply parse_failure_unreadable. now left.
  - intros Hl Hd.
    assert (Hw : well_formed s = forallb is_number (fields s)).
    { unfold well_formed. destruct Hl as [-> | ->]; reflexivity. }
    assert (Hok : well_formed s = true ->
              exists ptRef targetCorr relUnc,
                parse_constraint policy s = Proceed (ptRef, targetCorr, relUnc)
                /\ match fields s with
                   | [a; b] =>
                       ptRef = 208%float /\ stod policy a = inr targetCorr
                       /\ stod policy b = inr relUnc
                   | [a; b; c] =>
                       stod policy a = inr ptRef
                       /\ stod policy b = inr targetCorr
                       /\ stod policy c = inr relUnc
                   | _ => False
                   end).
    { rewrite Hw. intros Hn.
      pose proof (forallb_is_number_true policy _ Hd Hn) as Hf.
      destruct (read_fields_numbers policy (fields s) Hl Hf)
        as (p & t & u & Hr & Hv).
      exists p, t, u. split; [|exact Hv].
      rewrite parse_constraint_fields, Hr. reflexivity. }
    split; [|exact Hok]. split.
    + intros Hp. destruct (well_formed s); [|reflexivity].
      destruct (Hok eq_refl) as (p & t & u & Hq & _).
      rewrite Hq in Hp. discriminate.
    + rewrite Hw. intros Hn.
      destruct (forallb_is_number_false policy _ Hd Hn)
        as (good & bad & rest & Hf & Hg & Hb).
      apply parse_failure_unreadable. right.
      rewrite firstn_all2 by (destruct Hl as [-> | ->]; lia).
      rewrite Hf. now apply first_exception_first_bad.
Qed.

(** X17: the constraint is reported as unparsable exactly when the string
    has a single comma-separated field, or when, reading its first three
    fields in order, [std::stod] throws [invalid_argument] on a field before
    it throws [out_of_range] on any. No other message and no other status
    comes out of the parsing. *)
Theorem constraint_parse_error_iff (s : string) :
  (parse_constraint policy s = Return EXIT_FAILURE (parse_failure s)
   <-> unreadable policy s)
  /\ (forall status cerr, parse_constraint policy s = Return status cerr ->
        status = EXIT_FAILURE /\ cerr = parse_failure s).
Proof.
  split; [apply parse_failure_unreadable | apply parse_constraint_return].
Qed.

(** C3 fails as stated: "1.02" is one well-formed number, and is refused,
    however the C library reports underflow. *)
Lemma single_number_rejected :
  is_number "1.02" = true /\ decomposable "1.02" = true
  /\ forall underflow_erange,
       parse_constraint underflow_erange "1.02"
       = Return EXIT_FAILURE (parse_failure "1.02").
Proof. repeat split; intros; vm_compute; reflexivity. Qed.

(** X18: without [--help], an unknown balance variable, a constraint with a
    single field or on which [std::stod] throws [invalid_argument] before it
    throws [out_of_range] (once the multijet input, if any, is loaded), and
    a run without any measurement each make [main] write its message and
    return [EXIT_FAILURE] before the loss function and the minimizer
    exist. *)
Theorem configuration_errors_reported
  (multijet_failure : string -> option exception) (opts : options) :
  help opts = false ->
  (unknown_balance_name (balance opts) = true ->
     main_setup policy multijet_failure opts
     = Return EXIT_FAILURE (unknown_balance (balance opts)))
  /\ (unknown_balance_name (balance opts) = false ->
      multijet_loads multijet_failure opts ->
      forall s, constraint opts = Some s -> unreadable policy s ->
        main_setup policy multijet_failure opts
        = Return EXIT_FAILURE (parse_failure s))
  /\ (unknown_balance_name (balance opts) = false ->
      multijet opts = None -> constraint opts = None ->
        main_setup policy multijet_failure opts
        = Return EXIT_FAILURE no_measurements).
Proof.
  intros Hh. unfold main_setup. rewrite Hh, unknown_balance_code.
  split; [intros ->; reflexivity|].
  split.
  - intros -> Hm s Hc Hu. apply parse_failure_unreadable in Hu.
    unfold add_multijet, add_constraint, multijet_loads in *. rewrite Hc, Hu.
    destruct (multijet opts) as [f|]; [rewrite Hm|]; reflexivity.
  - intros -> Hm Hc. unfold add_multijet, add_constraint. rewrite Hm, Hc.
    reflexivity.
Qed.

(** C9, where the code falls short of it: a constraint of four fields, and
    one with text after its last number, are not of the form
    "[ptRef,]targetCorr,relUnc" (the comment in [main] asks for two or three
    numbers), yet the run goes on to the fit with the numbers that were
    read. *)
Lemma extra_field_accepted :
  configuration_error Sample.four_fields = true
  /\ configuration_error Sample.trailing_text = true
  /\ forall underflow_erange multijet_failure,
       main_setup underflow_erange multijet_failure Sample.four_fields
       = Proceed (false, [JetCorrConstraint 1 2 3])
       /\ main_setup underflow_erange multijet_failure Sample.trailing_text
          = Proceed (false, [JetCorrConstraint 208 1.02 0.01]).
Proof. repeat split; intros; vm_compute; reflexivity. Qed.

Lemma set_then_limit i nm stp lower upper (m : gmap nat variable) :
  SetVariableLimits i lower upper (SetVariable i nm 0%float stp m)
  = <[i := configured nm stp lower upper]> m.
Proof.
  unfold SetVariableLimits, SetVariable. rewrite lookup_insert_eq. simpl.
  apply insert_insert_eq.
Qed.

Lemma fold_insert_lookup (f : nat -> variable) (l : list nat)
  (m : gmap nat variable) j :
  fold_left (fun m i => <[i := f i]> m) l m !! j
  = if decide (j ∈ l) then Some (f j) else m !! j.
Proof.
  revert m; induction l as [|a l IH]; intros m; simpl.
  - destruct (decide (j ∈ [])) as [H|H]; [inversion H | reflexivity].
  - rewrite IH. destruct (decide (j ∈ l)) as [Hl|Hl].
    + rewrite decide_True by (now right). reflexivity.
    + destruct (decide (a = j)) as [->|Hne].
      * rewrite lookup_insert_eq. rewrite decide_True by left. reflexivity.
      * rewrite lookup_insert_ne by exact Hne.
        rewrite decide_False; [reflexivity|].
        intros H. apply elem_of_cons in H as [->|H];
          [now apply Hne | now apply Hl].
Qed.

Lemma fold_left_pointwise {A B} (f g : A -> B -> A) l a :
  (forall a b, f a b = g a b) -> fold_left f l a = fold_left g l a.
Proof.
  intros H. revert a; induction l as [|b l IH]; intros a; simpl; [reflexivity|].
  rewrite H. apply IH.
Qed.

(** One of the two loops: the variables of its range, and nothing else,
    are set. *)
Lemma for_range_lookup from to nm stp lower upper (m : gmap nat variable) j :
  for_range from to
    (fun i m => SetVariableLimits i lower upper (SetVariable i (nm i) 0%float stp m))
    m !! j
  = if decide (from <= j < to)%nat then Some (configured (nm j) stp lower upper)
    else m !! j.
Proof.
  unfold for_range.
  rewrite (fold_left_pointwise _
             (fun m i => <[i := configured (nm i) stp lower upper]> m))
    by (intros; apply set_then_limit).
  rewrite fold_insert_lookup.
  destruct (decide (j ∈ seq from (to - from))) as [H|H];
    rewrite elem_of_seq in H.
  - rewrite decide_True by lia. reflexivity.
  - rewrite decide_False by lia. reflexivity.
Qed.

(** The [unsigned] difference [nPars - GetNumParams()]. *)
Lemma nPOI_cases (nPars : Z) (nuisanceDefs : NuisanceDefinitions) :
  (0 <= nPars < 2 ^ 32)%Z ->
  let G := GetNumParams nuisanceDefs in
  (0 <= G <= Z.of_nat (List.length nuisanceDefs))%Z
  /\ ((G <= nPars)%Z /\ Ieee.wrap32 (nPars - G) = (nPars - G)%Z
      \/ (nPars < G)%Z /\ Ieee.wrap32 (nPars - G) = (nPars - G + 2 ^ 32)%Z).
Proof.
  intros Hn G. unfold G, GetNumParams, Ieee.wrap32.
  set (len := Z.of_nat (List.length nuisanceDefs)).
  assert (Hlen : (0 <= len)%Z) by (unfold len; lia).
  pose proof (Z.mod_pos_bound len (2 ^ 32) ltac:(lia)) as Hb.
  pose proof (Z.mod_le len (2 ^ 32) Hlen ltac:(lia)) as Hle.
  split; [lia|].
  destruct (Z_le_gt_dec (len mod 2 ^ 32) nPars) as [H|H].
  - left. split; [exact H|]. apply Z.mod_small. lia.
  - right. split; [lia|].
    rewrite <- (Z.mod_add _ 1 (2 ^ 32)) by lia. apply Z.mod_small. lia.
Qed.

(** C6: of the [nPars] variables handed to the minimizer, the first
    nPOI = nPars - registry size (as [unsigned]) are the POI, named p0, p1,
    ..., started at 0 and limited to [-1, 1]; the variables nPOI .. nPars-1
    are the nuisances in registry order, limited to [-5, 5]; no other
    variable is set. When the registry is no larger than [nPars] the
    difference is the plain one. *)
Theorem minimizer_variable_layout (nPars : Z) (nuisanceDefs : NuisanceDefinitions) :
  (0 <= nPars < 2 ^ 32)%Z ->
  let nPOI := Z.to_nat (Ieee.wrap32 (nPars - GetNumParams nuisanceDefs)) in
  let minimizer := set_variables nPars nuisanceDefs ∅ in
  ((Z.of_nat (List.length nuisanceDefs) <= nPars)%Z ->
     nPOI = (Z.to_nat nPars - List.length nuisanceDefs)%nat)
  /\ (forall i, (i < nPOI)%nat ->
        minimizer !! i = Some (configured ("p" ++ to_string i) 0.01 (-1) 1))
  /\ (forall i, (nPOI <= i < Z.to_nat nPars)%nat ->
        exists nm, nuisanceDefs !! (i - nPOI)%nat = Some nm
                   /\ minimizer !! i = Some (configured nm 1 (-5) 5))
  /\ (forall i, (nPOI <= i)%nat -> (Z.to_nat nPars <= i)%nat ->
        minimizer !! i = None).
Proof.
  intros Hn nPOI minimizer.
  destruct (nPOI_cases nPars nuisanceDefs Hn) as [HG Hcases].
  assert (Hlook : forall j, minimizer !! j
            = if decide (nPOI <= j < Z.to_nat nPars)%nat
              then Some (configured (GetName nuisanceDefs (j - nPOI)) 1 (-5) 5)
              else if decide (0 <= j < nPOI)%nat
                   then Some (configured ("p" ++ to_string j) 0.01 (-1) 1)
                   else None).
  { intros j. unfold minimizer, set_variables. fold nPOI.
    rewrite (for_range_lookup nPOI (Z.to_nat nPars)
               (fun i => GetName nuisanceDefs (i - nPOI))).
    rewrite (for_range_lookup 0 nPOI (fun i => "p" ++ to_string i)).
    rewrite lookup_empty. reflexivity. }
  split; [|split; [|split]].
  - intros Hd. unfold nPOI.
    assert (HGeq : GetNumParams nuisanceDefs = Z.of_nat (List.length nuisanceDefs)).
    { unfold GetNumParams, Ieee.wrap32. apply Z.mod_small. lia. }
    destruct Hcases as [[_ ->]|[Hlt _]]; lia.
  - intros i Hi. rewrite Hlook, decide_False, decide_True by lia. reflexivity.
  - intros i Hi. rewrite Hlook, decide_True by lia.
    destruct (nuisanceDefs !! (i - nPOI)%nat) as [nm|] eqn:Hnm.
    + exists nm. split; [reflexivity|]. unfold GetName.
      rewrite (nth_lookup_Some _ _ _ _ Hnm). reflexivity.
    + apply lookup_ge_None in Hnm. unfold nPOI in *.
      destruct Hcases as [[Hle Hw]|[Hlt Hw]]; rewrite Hw in *; lia.
  - intros i Hi1 Hi2. rewrite Hlook, !decide_False by lia. reflexivity.
Qed.

Lemma minimizer_variable_layout_witness :
  set_variables 4 ["photonScale"; "jer"] ∅ !! 3%nat
  = Some (configured "jer" 1 (-5) 5).
Proof.
  destruct (proj1 (proj2 (proj2 (minimizer_variable_layout 4 ["photonScale"; "jer"]
                                   ltac:(lia)))) 3%nat ltac:(vm_compute; lia))
    as (nm & Hnm & Hv).
  injection Hnm as <-. exact Hv.
Defined.

End FitFacts.

Lemma constraint_two_or_three_numbers_witness :
  Fit.parse_constraint Strtod.report_underflow "abc,0.01"
  = Fit.Return Fit.EXIT_FAILURE (Fit.parse_failure "abc,0.01")
  <-> ConstraintSpec.well_formed "abc,0.01" = false.
Proof.
  apply (proj2 (constraint_two_or_three_numbers Strtod.report_underflow
                  "abc,0.01")).
  - left. reflexivity.
  - constructor; [right; reflexivity|].
    constructor; [|constructor].
    left. split; [reflexivity|]. eexists. vm_compute. reflexivity.
Defined.

Lemma configuration_errors_reported_witness :
  Fit.main_setup Strtod.report_underflow (fun _ => None) Sample.bad_balance
  = Fit.Return Fit.EXIT_FAILURE (Fit.unknown_balance "Pt").
Proof.
  apply (proj1 (configuration_errors_reported Strtod.report_underflow
                  (fun _ => None) Sample.bad_balance eq_refl)).
  reflexivity.
Defined.

(** ** HistMorph *)

Section HistMorphFacts.

Import HistMorph.
Local Open Scope Q_scope.

Section Contract.

Variable S S' : Q -> Q.
Hypothesis S_low : S (-1) == 0.
Hypothesis S_mid : S 0 == 1 # 2.
Hypothesis S_high : S 1 == 1.




End Contract.






End HistMorphFacts.

(** ** Further properties of PhotonJet *)

Section PhotonJetMore.

Import Ieee PhotonJet.
Local Open Scope float_scope.

Lemma SFadd_nan a b :
  SFisnan a = true \/ SFisnan b = true -> SFisnan (SF64add a b) = true.
Proof.
  destruct a as [sa|sa| |sa ma ea], b as [sb|sb| |sb mb eb]; simpl;
    intros [H|H]; try discriminate; reflexivity.
Qed.

Lemma SFsub_nan a b :
  SFisnan a = true \/ SFisnan b = true -> SFisnan (SF64sub a b) = true.
Proof.
  destruct a as [sa|sa| |sa ma ea], b as [sb|sb| |sb mb eb]; simpl;
    intros [H|H]; try discriminate; reflexivity.
Qed.

Lemma SFmul_nan a b :
  SFisnan a = true \/ SFisnan b = true -> SFisnan (SF64mul a b) = true.
Proof.
  destruct a as [sa|sa| |sa ma ea], b as [sb|sb| |sb mb eb]; simpl;
    intros [H|H]; try discriminate; reflexivity.
Qed.

Lemma SFdiv_nan a b :
  SFisnan a = true \/ SFisnan b = true -> SFisnan (SF64div a b) = true.
Proof.
  destruct a as [sa|sa| |sa ma ea], b as [sb|sb| |sb mb eb]; simpl;
    intros [H|H]; try discriminate; reflexivity.
Qed.

Lemma is_nan_SF x : is_nan x = SFisnan (Prim2SF x).
Proof. rewrite is_nan_spec. reflexivity. Qed.

Lemma add_nan a b : is_nan a = true \/ is_nan b = true -> is_nan (a + b) = true.
Proof. rewrite !is_nan_SF, add_spec. apply SFadd_nan. Qed.

Lemma sub_nan a b : is_nan a = true \/ is_nan b = true -> is_nan (a - b) = true.
Proof. rewrite !is_nan_SF, sub_spec. apply SFsub_nan. Qed.

Lemma mul_nan a b : is_nan a = true \/ is_nan b = true -> is_nan (a * b) = true.
Proof. rewrite !is_nan_SF, mul_spec. apply SFmul_nan. Qed.

Lemma div_nan a b : is_nan a = true \/ is_nan b = true -> is_nan (a / b) = true.
Proof. rewrite !is_nan_SF, div_spec. apply SFdiv_nan. Qed.

Lemma sum_nan (f : PtBin -> float) l acc :
  is_nan acc = true \/ Exists (fun b => is_nan (f b) = true) l ->
  is_nan (fold_left (fun chi2 b => chi2 + f b) l acc) = true.
Proof.
  revert acc; induction l as [|b l IH]; intros acc H; simpl.
  - destruct H as [H|H]; [exact H | inversion H].
  - apply IH. destruct H as [H|H].
    + left. apply add_nan; auto.
    + inversion H; subst; [left; apply add_nan; auto | right; assumption].
Qed.

Lemma term_nan_input c n bin :
  nan_input c n bin = true -> is_nan (term c n bin) = true.
Proof.
  unfold nan_input, term, pow2. intros H.
  apply orb_true_iff in H as [H|H]; [apply orb_true_iff in H as [H|H]|].
  - apply div_nan; left. apply mul_nan; left. apply sub_nan; left.
    apply div_nan; auto.
  - apply div_nan; auto.
  - apply div_nan; left. apply mul_nan; left. apply sub_nan; right.
    apply div_nan; auto.
Qed.

Lemma term_nan_scale c n bin :
  is_nan (photonScale n) = true -> is_nan (term c n bin) = true.
Proof.
  intros H. unfold term, pow2.
  apply div_nan; left. apply mul_nan; left. apply sub_nan; left.
  apply div_nan; right. apply add_nan; auto.
Qed.

Lemma SFsub_diag f : SFnonfinite f = false -> SF64sub f f = S754_zero false.
Proof.
  destruct f as [s|s| |s m e]; simpl; intros H; try discriminate.
  - destruct s; reflexivity.
  - unfold SF64sub, SFsub. rewrite Z.sub_diag. reflexivity.
Qed.

Lemma sub_diag a : is_finite a = true -> a - a = 0.
Proof.
  rewrite is_finite_spec. intros H. apply negb_true_iff in H.
  apply Prim2SF_inj. rewrite sub_spec. now apply SFsub_diag.
Qed.

Lemma SFdiv_zero_pos u :
  SFltb (S754_zero false) u = true -> SF64div (S754_zero false) u = S754_zero false.
Proof.
  destruct u as [s|s| |s m e]; simpl; unfold SFltb; simpl; try discriminate;
    destruct s; try discriminate; reflexivity.
Qed.

Lemma div_zero_pos u : (0 <? u) = true -> 0 / u = 0.
Proof.
  rewrite FloatAxioms.ltb_spec. intros H.
  apply Prim2SF_inj. rewrite div_spec. now apply SFdiv_zero_pos.
Qed.

Lemma add_zero_r x : nonneg_or_nan x -> x + 0 = x.
Proof.
  unfold nonneg_or_nan. intros H. apply Prim2SF_inj. rewrite add_spec.
  change (Prim2SF 0) with (S754_zero false).
  destruct (Prim2SF x) as [s|s| |s m e]; simpl in *; try reflexivity.
  apply negb_true_iff in H. subst s. reflexivity.
Qed.

Lemma term_agrees c n bin : agrees c n bin -> term c n bin = 0.
Proof.
  intros (He & Hf & Hu). unfold term, pow2. rewrite <- He, (sub_diag _ Hf).
  change (0 * 0) with 0. now apply div_zero_pos.
Qed.

(** X1: the constructor stores a square in every [unc2]: the stored value
    is NaN or at least 0, never negative. *)
Theorem PhotonJet_unc2_nonneg fileName inputFile method (self : t) :
  make fileName inputFile method = Constructed self ->
  Forall (fun bin => is_nan (unc2 bin) = true \/ (0 <=? unc2 bin) = true)
         (bins self).
Proof.
  intros H. eapply Forall_impl; [apply (make_bins_nonneg _ _ _ _ H)|].
  intros b Hb. now apply nonneg_or_nan_leb.
Qed.

Lemma PhotonJet_unc2_nonneg_witness :
  Forall (fun bin => is_nan (unc2 bin) = true \/ (0 <=? unc2 bin) = true)
         (bins Inputs.two_bins).
Proof.
  apply (PhotonJet_unc2_nonneg "in.root" Inputs.two_points MPF Inputs.two_bins).
  reflexivity.
Defined.

(** X2: [Eval] looks at the corrector only at the rescaled photon pt of the
    bins: two correctors that agree there give the same value. *)
Theorem PhotonJet_Eval_corrector_local (self : t) (c c' : JetCorrBase)
  (n : Nuisances) :
  Forall (fun bin => c (ptPhoton bin * (1 + photonScale n))
                     = c' (ptPhoton bin * (1 + photonScale n))) (bins self) ->
  Eval self c n = Eval self c' n.
Proof.
  intros H. rewrite !Eval_fold. generalize 0.
  induction H as [|b l Hb _ IH]; intros acc; cbn [fold_left]; [reflexivity|].
  replace (term c' n b) with (term c n b) by (unfold term; now rewrite Hb).
  apply IH.
Qed.

Lemma PhotonJet_Eval_corrector_local_witness :
  Eval (Sample.measurement_of 100 0.5 0.5) Sample.unit_corr Sample.no_shift
  = Eval (Sample.measurement_of 100 0.5 0.5) Inputs.kinked_corr Sample.no_shift.
Proof.
  apply (PhotonJet_Eval_corrector_local
           (Sample.measurement_of 100 0.5 0.5) Sample.unit_corr Inputs.kinked_corr
           Sample.no_shift).
  constructor; [reflexivity | constructor].
Defined.

(** X3: a NaN poisons the whole sum: when the photon scale is NaN and there
    is a bin, or when some bin has a NaN balance ratio, a NaN [unc2] or a NaN
    correction factor, [Eval] returns NaN. *)
Theorem PhotonJet_Eval_nan_propagates (self : t) (corrector : JetCorrBase)
  (nuisances : Nuisances) :
  (is_nan (photonScale nuisances) = true /\ bins self <> [])
  \/ Exists (fun bin => nan_input corrector nuisances bin = true) (bins self) ->
  is_nan (Eval self corrector nuisances) = true.
Proof.
  intros H. rewrite Eval_fold. apply sum_nan. right.
  destruct H as [[Hs Hne]|H].
  - destruct (bins self) as [|b l]; [contradiction|].
    apply Exists_cons_hd. now apply term_nan_scale.
  - induction H as [b l Hb|b l _ IH];
      [left; now apply term_nan_input | right; exact IH].
Qed.

Lemma PhotonJet_Eval_nan_propagates_witness :
  is_nan (Eval Inputs.two_bins Inputs.nan_corr Sample.no_shift) = true.
Proof.
  apply (PhotonJet_Eval_nan_propagates Inputs.two_bins Inputs.nan_corr Sample.no_shift).
  right. apply Exists_cons_hd. reflexivity.
Defined.

(** X4: at the photon scale -1, a value inside the limits the driver gives
    every nuisance, the division by 1 + photonScale is a division by zero:
    for a measurement with at least one bin [Eval] is infinite or NaN. *)
Theorem PhotonJet_Eval_full_shift (self : t) (corrector : JetCorrBase)
  (nuisances : Nuisances) :
  photonScale nuisances = (-1) -> bins self <> [] ->
  is_finite (Eval self corrector nuisances) = false.
Proof.
  intros Hs Hne. rewrite is_finite_spec, Eval_fold.
  apply negb_false_iff. apply sum_nonfinite. right.
  destruct (bins self) as [|b l]; [contradiction|]. apply Exists_cons_hd.
  unfold nonfinite, term, pow2. rewrite Hs.
  change (1 + -1) with 0.
  rewrite div_spec. apply SFdiv_nonfinite_num.
  rewrite mul_spec. apply SFmul_self_nonfinite.
  rewrite sub_spec. apply SFsub_nonfinite. left.
  rewrite div_spec. apply SFdiv_by_zero. reflexivity.
Qed.

Lemma PhotonJet_Eval_full_shift_witness :
  is_finite (Eval Inputs.two_bins Sample.unit_corr Sample.full_shift) = false.
Proof.
  apply (PhotonJet_Eval_full_shift Inputs.two_bins Sample.unit_corr Sample.full_shift).
  - reflexivity.
  - discriminate.
Defined.

(** X5: when in every bin the corrected balance ratio is finite and equals
    the inverse correction and [unc2] is positive, [Eval] returns exactly 0. *)
Theorem PhotonJet_Eval_perfect_agreement (self : t) (corrector : JetCorrBase)
  (nuisances : Nuisances) :
  Forall (agrees corrector nuisances) (bins self) ->
  Eval self corrector nuisances = 0.
Proof.
  intros H. rewrite Eval_fold.
  induction H as [|b l Hb _ IH]; cbn [fold_left]; [reflexivity|].
  rewrite (term_agrees _ _ _ Hb). change (0 + 0) with 0. exact IH.
Qed.

Lemma PhotonJet_Eval_perfect_agreement_witness :
  Eval (Sample.measurement_of 100 1 0.5) Sample.unit_corr Sample.no_shift = 0.
Proof.
  apply (PhotonJet_Eval_perfect_agreement
           (Sample.measurement_of 100 1 0.5) Sample.unit_corr Sample.no_shift).
  constructor; [|constructor].
  split; [reflexivity | split; reflexivity].
Defined.

(** X6: in a constructed measurement a bin that agrees with the correction
    in this sense adds nothing: [Eval] is the value of the measurement
    without that bin. *)
Theorem PhotonJet_Eval_agreeing_bin_neutral fileName inputFile method (self : t)
  (corrector : JetCorrBase) (nuisances : Nuisances) (l1 l2 : list PtBin)
  (bin : PtBin) :
  make fileName inputFile method = Constructed self ->
  bins self = l1 ++ bin :: l2 ->
  agrees corrector nuisances bin ->
  Eval self corrector nuisances
  = Eval {| bins := l1 ++ l2 |} corrector nuisances.
Proof.
  intros Hm Hb Ha. rewrite !Eval_fold. cbn [bins].
  pose proof (make_bins_nonneg _ _ _ _ Hm) as HF. rewrite Hb in HF.
  apply Forall_app in HF as [HF1 _].
  rewrite Hb, !fold_left_app. cbn [fold_left].
  rewrite (term_agrees _ _ _ Ha), add_zero_r; [reflexivity|].
  apply sum_nonneg; [reflexivity|].
  eapply Forall_impl; [exact HF1|]. intros b Hbn. now apply term_nonneg.
Qed.

Lemma PhotonJet_Eval_agreeing_bin_neutral_witness :
  Eval Inputs.two_bins Sample.unit_corr Sample.no_shift
  = Eval {| bins := [bin_of_point (Inputs.point 50 0.5 0.5)] ++ [] |}
      Sample.unit_corr Sample.no_shift.
Proof.
  apply (PhotonJet_Eval_agreeing_bin_neutral "in.root" Inputs.two_points PtBal
           Inputs.two_bins Sample.unit_corr Sample.no_shift
           [bin_of_point (Inputs.point 50 0.5 0.5)] []
           (bin_of_point (Inputs.point 100 1 0.5))).
  - reflexivity.
  - reflexivity.
  - split; [reflexivity | split; reflexivity].
Defined.

End PhotonJetMore.

(** ** Further properties of the constraint option *)

Section ConstraintMore.

Import Strtod Fit ConstraintSpec.
Local Open Scope string_scope.

(** The C library's choice on underflow; what follows holds for each. *)
Variable policy : number -> bool.

Lemma stod_exception s e :
  stod policy s = inl e -> e = invalid_argument \/ e = out_of_range.
Proof.
  unfold stod. destruct (strtod s) as [[x r]|]; [|intros [= <-]; auto].
  destruct (erange policy x); intros [= <-]; auto.
Qed.

Lemma outcome_of_terminate s r e :
  outcome_of s r = Terminate e <-> r = inl e /\ e <> invalid_argument.
Proof.
  destruct r as [[]|]; simpl; split;
    try (intros [= <-]; split; [reflexivity | discriminate]);
    try (intros [[= <-] H]; try reflexivity; now contradiction H);
    try discriminate; intros [[=] _].
Qed.

Lemma outcome_of_proceed s r args :
  outcome_of s r = Proceed args <-> r = inr args.
Proof.
  destruct r as [[]|]; simpl; split; intros H; try discriminate; congruence.
Qed.

Lemma read_fields_out_of_range fs :
  read_fields policy fs = inl out_of_range
  <-> (2 <= List.length fs)%nat
      /\ first_exception policy (firstn 3 fs) = Some out_of_range.
Proof.
  destruct fs as [|a [|b [|c rest]]]; simpl.
  - split; [discriminate | intros [H _]; lia].
  - split; [discriminate | intros [H _]; lia].
  - destruct (stod policy a) as [ea|va]; simpl.
    { split; [intros [= ->]; split; [lia|reflexivity]
             | intros [_ [= ->]]; reflexivity]. }
    destruct (stod policy b) as [eb|vb]; simpl.
    { split; [intros [= ->]; split; [lia|reflexivity]
             | intros [_ [= ->]]; reflexivity]. }
    split; [discriminate | intros [_ [=]]].
  - destruct (stod policy a) as [ea|va]; simpl.
    { split; [intros [= ->]; split; [lia|reflexivity]
             | intros [_ [= ->]]; reflexivity]. }
    destruct (stod policy b) as [eb|vb]; simpl.
    { split; [intros [= ->]; split; [lia|reflexivity]
             | intros [_ [= ->]]; reflexivity]. }
    destruct (stod policy c) as [ec|vc]; simpl.
    { split; [intros [= ->]; split; [lia|reflexivity]
             | intros [_ [= ->]]; reflexivity]. }
    split; [discriminate | intros [_ [=]]].
Qed.

Lemma read_fields_exception fs e :
  read_fields policy fs = inl e -> e = invalid_argument \/ e = out_of_range.
Proof.
  destruct fs as [|a [|b [|c rest]]]; simpl; try (intros [= <-]; auto).
  - destruct (stod policy a) as [ea|va] eqn:Ha; simpl.
    { intros [= <-]. eapply stod_exception; eauto. }
    destruct (stod policy b) as [eb|vb] eqn:Hb; simpl; [|discriminate].
    intros [= <-]. eapply stod_exception; eauto.
  - destruct (stod policy a) as [ea|va] eqn:Ha; simpl.
    { intros [= <-]. eapply stod_exception; eauto. }
    destruct (stod policy b) as [eb|vb] eqn:Hb; simpl.
    { intros [= <-]. eapply stod_exception; eauto. }
    destruct (stod policy c) as [ec|vc] eqn:Hc; simpl; [|discriminate].
    intros [= <-]. eapply stod_exception; eauto.
Qed.

Lemma parse_constraint_terminate s e :
  parse_constraint policy s = Terminate e
  <-> e = out_of_range
      /\ (2 <= List.length (fields s))%nat
      /\ first_exception policy (firstn 3 (fields s)) = Some out_of_range.
Proof.
  rewrite parse_constraint_fields, outcome_of_terminate. split.
  - intros [H Hne]. destruct (read_fields_exception _ _ H) as [->| ->];
      [contradiction|].
    split; [reflexivity|]. now apply read_fields_out_of_range.
  - intros (-> & H). split; [now apply read_fields_out_of_range | discriminate].
Qed.

Lemma fields_comma_free a r :
  no_comma a = true -> fields (a ++ String "," r) = a :: fields r.
Proof.
  induction a as [|c a IH]; simpl; [reflexivity|].
  intros H. apply andb_true_iff in H as [Hc Ha]. apply negb_true_iff in Hc.
  rewrite Hc, (IH Ha). reflexivity.
Qed.

Lemma isspace_not_comma c : isspace c = true -> Ascii.eqb c "," = false.
Proof.
  intros H. destruct (Ascii.eqb c ",") eqn:E; [|reflexivity].
  apply Ascii.eqb_eq in E. subst c. discriminate.
Qed.

Lemma stod_space c s :
  isspace c = true -> stod policy (String c s) = stod policy s.
Proof.
  intros H. unfold stod, strtod. simpl skip_space. rewrite H. reflexivity.
Qed.

Lemma fields_space c r :
  isspace c = true ->
  exists f fs, fields r = f :: fs /\ fields (String c r) = String c f :: fs.
Proof.
  intros H. simpl. rewrite (isspace_not_comma c H).
  destruct (fields r) as [|f fs] eqn:E; [now destruct (fields_nonempty r)|].
  eauto.
Qed.

(** X7: the driver's reading of the option with [find], [substr] and
    [std::stod] is the reading of the comma-separated fields one by one: two
    fields with the default scale, otherwise the first three. Passing the
    position of the second comma as the length of the second piece changes
    nothing. *)
Theorem constraint_reads_fields (s : string) :
  parse_constraint policy s
  = match read_fields policy (fields s) with
    | inr args => Proceed args
    | inl invalid_argument => Return EXIT_FAILURE (parse_failure s)
    | inl e => Terminate e
    end.
Proof. exact (parse_constraint_fields policy s). Qed.

(** X8: the constraint is accepted with (ptRef, targetCorr, relUnc) exactly
    when the string has two fields that [std::stod] converts to targetCorr
    and relUnc, ptRef being 208, or at least three, of which [std::stod]
    converts the first three to the three numbers; what follows the third
    field is not looked at. *)
Theorem constraint_success (s : string) (ptRef targetCorr relUnc : float) :
  parse_constraint policy s = Proceed (ptRef, targetCorr, relUnc)
  <-> match fields s with
      | [a; b] =>
          ptRef = 208%float /\ stod policy a = inr targetCorr
          /\ stod policy b = inr relUnc
      | a :: b :: c :: _ =>
          stod policy a = inr ptRef /\ stod policy b = inr targetCorr
          /\ stod policy c = inr relUnc
      | _ => False
      end.
Proof.
  rewrite parse_constraint_fields, outcome_of_proceed.
  destruct (fields s) as [|a [|b [|c rest]]]; simpl;
    try (split; [discriminate | contradiction]).
  - destruct (stod policy a) as [ea|va]; simpl;
      [split; [discriminate | intros (_ & [=] & _)]|].
    destruct (stod policy b) as [eb|vb]; simpl;
      [split; [discriminate | intros (_ & _ & [=])]|].
    split; [intros [= <- <- <-]; auto
           | intros (-> & [= ->] & [= ->]); reflexivity].
  - destruct (stod policy a) as [ea|va]; simpl;
      [split; [discriminate | intros ([=] & _)]|].
    destruct (stod policy b) as [eb|vb]; simpl;
      [split; [discriminate | intros (_ & [=] & _)]|].
    destruct (stod policy c) as [ec|vc]; simpl;
      [split; [discriminate | intros (_ & _ & [=])]|].
    split; [intros [= <- <- <-]; auto
           | intros ([= ->] & [= ->] & [= ->]); reflexivity].
Qed.

(** X9: an exception escapes the parsing of the constraint exactly when the
    string has at least two fields and, reading the first three in order,
    [std::stod] throws [out_of_range] on a field before it throws
    [invalid_argument] on any; the exception that escapes is that
    [std::out_of_range], which the [catch] clause does not handle. *)
Theorem constraint_uncaught_exception (s : string) (e : exception) :
  parse_constraint policy s = Terminate e
  <-> e = out_of_range
      /\ (2 <= List.length (fields s))%nat
      /\ first_exception policy (firstn 3 (fields s)) = Some out_of_range.
Proof. exact (parse_constraint_terminate s e). Qed.

(** X10: white space after the first comma is skipped: with or without it
    the same numbers are accepted. *)
Theorem constraint_space_after_comma (a r : string) (c : ascii)
  (args : float * float * float) :
  no_comma a = true -> isspace c = true ->
  parse_constraint policy (a ++ String "," (String c r)) = Proceed args
  <-> parse_constraint policy (a ++ String "," r) = Proceed args.
Proof.
  intros Ha Hc. rewrite !parse_constraint_fields, !outcome_of_proceed.
  rewrite !(fields_comma_free _ _ Ha).
  destruct (fields_space c r Hc) as (f & fs & -> & ->).
  destruct fs as [|g fs]; simpl; rewrite (stod_space c f Hc); reflexivity.
Qed.

End ConstraintMore.

Lemma constraint_space_after_comma_witness :
  Fit.parse_constraint Strtod.report_underflow "1.02, 0.01" = Fit.Proceed (208, 1.02, 0.01)%float
  <-> Fit.parse_constraint Strtod.report_underflow "1.02,0.01" = Fit.Proceed (208, 1.02, 0.01)%float.
Proof.
  apply (constraint_space_after_comma Strtod.report_underflow "1.02" "0.01" " " (208, 1.02, 0.01)%float);
    reflexivity.
Defined.

(** ** Further properties of the set-up in [main] *)

Section SetupMore.

Import Strtod Fit ConstraintSpec.
Local Open Scope string_scope.

(** The C library's choice on underflow; what follows holds for each. *)
Variable policy : number -> bool.

Lemma add_multijet_proceed mf opts useMPF ms :
  add_multijet mf opts useMPF = Proceed ms ->
  multijet_loads mf opts
  /\ ms = match multijet opts with
          | Some f => [MultijetCrawlingBins f (if useMPF then MPF else PtBal)
                         (0%float, 1600%float)]
          | None => []
          end.
Proof.
  unfold add_multijet, multijet_loads. destruct (multijet opts) as [f|].
  - destruct (mf f); [discriminate|]. intros [= <-]. auto.
  - intros [= <-]. auto.
Qed.

Lemma add_constraint_proceed opts ms ms' :
  add_constraint policy opts ms = Proceed ms' ->
  ms' = ms /\ constraint opts = None
  \/ exists s p t u, constraint opts = Some s
       /\ parse_constraint policy s = Proceed (p, t, u)
       /\ ms' = (ms ++ [JetCorrConstraint p t u])%list.
Proof.
  unfold add_constraint. destruct (constraint opts) as [s|].
  - destruct (parse_constraint policy s) as [st ce|e|[[p t] u]] eqn:Hp; try discriminate.
    intros [= <-]. right. eauto 8.
  - intros [= <-]. auto.
Qed.

Lemma add_constraint_return opts ms status cerr :
  add_constraint policy opts ms = Return status cerr ->
  status = EXIT_FAILURE
  /\ exists s, constraint opts = Some s /\ cerr = parse_failure s.
Proof.
  unfold add_constraint. destruct (constraint opts) as [s|]; [|discriminate].
  destruct (parse_constraint policy s) as [st ce|e|[[p t] u]] eqn:Hp; try discriminate.
  intros [= <- <-]. apply parse_constraint_return in Hp as [-> ->]. eauto.
Qed.

(** X11: the set-up never returns success: whenever [main] returns before
    the fit, the status is [EXIT_FAILURE] and [cerr] got one of four
    messages: the usage text, the unknown balance variable, the unparsable
    constraint, or the absence of measurements. *)
Theorem main_setup_returns_failure (multijet_failure : string -> option exception)
  (opts : options) (status : Z) (cerr : string) :
  main_setup policy multijet_failure opts = Return status cerr ->
  status = EXIT_FAILURE
  /\ cerr <> ""
  /\ (cerr = help_text
      \/ cerr = unknown_balance (balance opts)
      \/ (exists s, constraint opts = Some s /\ cerr = parse_failure s)
      \/ cerr = no_measurements).
Proof.
  unfold main_setup.
  destruct (help opts).
  { intros [= <- <-]. split; [reflexivity|]. split; [discriminate | auto]. }
  destruct (_ && _).
  { intros [= <- <-]. split; [reflexivity|]. split; [discriminate | auto]. }
  destruct (add_multijet multijet_failure opts _) as [st ce|e|ms] eqn:Hm.
  { unfold add_multijet in Hm. destruct (multijet opts) as [f|]; [|discriminate].
    destruct (multijet_failure f); discriminate. }
  { discriminate. }
  destruct (add_constraint policy opts ms) as [st ce|e|ms'] eqn:Hc.
  - intros [= <- <-]. apply add_constraint_return in Hc as (-> & s & Hs & ->).
    split; [reflexivity|]. split; [discriminate | eauto 6].
  - discriminate.
  - destruct ms'; [|discriminate].
    intros [= <- <-]. split; [reflexivity|]. split; [discriminate | auto].
Qed.

(** X12: the set-up hands over to the fit exactly when [--help] was not
    given, the balance variable is "mpf" or "ptbal" up to case, [useMPF]
    saying which, the multijet input (if any) was loaded, the text of
    [--constraint] (if given) was parsed to three numbers, and the
    measurements are, in this order, the multijet measurement of that method
    with the pt range (0, 1600) when [--multijet] was given and the
    constraint with the three parsed numbers when [--constraint] was given,
    of which there is at least one. A constraint that does not parse is
    never dropped: the set-up then does not reach the fit. *)
Theorem main_setup_proceeds (multijet_failure : string -> option exception)
  (opts : options) (useMPF : bool) (ms : list measurement) :
  main_setup policy multijet_failure opts = Proceed (useMPF, ms) <->
  help opts = false
  /\ useMPF = String.eqb (to_lower (balance opts)) "mpf"
  /\ (useMPF = false -> to_lower (balance opts) = "ptbal")
  /\ multijet_loads multijet_failure opts
  /\ ms <> []
  /\ exists part,
       ms = (match multijet opts with
             | Some f => [MultijetCrawlingBins f (if useMPF then MPF else PtBal)
                            (0%float, 1600%float)]
             | None => []
             end ++ part)%list
       /\ match constraint opts with
          | Some s =>
              exists ptRef targetCorr relUnc,
                parse_constraint policy s = Proceed (ptRef, targetCorr, relUnc)
                /\ part = [JetCorrConstraint ptRef targetCorr relUnc]
          | None => part = []
          end.
Proof.
  split.
  - unfold main_setup.
    destruct (help opts); [discriminate|].
    destruct (String.eqb (to_lower (balance opts)) "mpf") eqn:Hmpf;
      destruct (String.eqb (to_lower (balance opts)) "ptbal") eqn:Hpt; simpl;
      try discriminate;
      (destruct (add_multijet multijet_failure opts _) as [st ce|e|ms0] eqn:Hm;
       try discriminate;
       apply add_multijet_proceed in Hm as [Hl ->];
       destruct (add_constraint policy opts _) as [st ce|e|ms'] eqn:Hc;
       try discriminate;
       destruct ms' as [|m1 ms'']; [discriminate|];
       intros [= <- <-];
       split; [reflexivity|]; split; [reflexivity|];
       split; [first [discriminate | intros _; now apply String.eqb_eq]|];
       split; [exact Hl|]; split; [discriminate|];
       apply add_constraint_proceed in Hc
         as [[-> Hn]|(s & p & t & u & Hs & Hp & ->)];
       [ exists []; rewrite Hn; split; [now rewrite app_nil_r | reflexivity]
       | exists [JetCorrConstraint p t u]; rewrite Hs; split; [reflexivity|];
         exists p, t, u; auto ]).
  - intros (Hh & -> & Hpt & Hl & Hne & part & -> & Hc).
    unfold main_setup. rewrite Hh.
    assert (Hb : negb (String.eqb (to_lower (balance opts)) "mpf")
                 && negb (String.eqb (to_lower (balance opts)) "ptbal") = false).
    { destruct (String.eqb (to_lower (balance opts)) "mpf"); [reflexivity|].
      rewrite (Hpt eq_refl). reflexivity. }
    rewrite Hb. clear Hb Hpt.
    unfold add_multijet, add_constraint, multijet_loads in *.
    destruct (multijet opts) as [f|]; [rewrite Hl|];
      (destruct (constraint opts) as [s|];
       [ destruct Hc as (p & t & u & Hp & ->); rewrite Hp; reflexivity
       | subst part; first [reflexivity | now destruct Hne] ]).
Qed.

(** X13: an exception leaves the set-up only in two ways: it is the one the
    multijet constructor threw, or it is the [std::out_of_range] that
    [std::stod] threw on one of the first three fields of a constraint with
    at least two fields, no earlier field having made it throw
    [std::invalid_argument]. *)
Theorem main_setup_uncaught (multijet_failure : string -> option exception)
  (opts : options) (e : exception) :
  main_setup policy multijet_failure opts = Terminate e ->
  (exists f, multijet opts = Some f /\ multijet_failure f = Some e)
  \/ (e = out_of_range
      /\ exists s, constraint opts = Some s
           /\ (2 <= List.length (fields s))%nat
           /\ first_exception policy (firstn 3 (fields s)) = Some out_of_range).
Proof.
  unfold main_setup.
  destruct (help opts); [discriminate|].
  destruct (_ && _); [discriminate|].
  unfold add_multijet.
  destruct (multijet opts) as [f|].
  - destruct (multijet_failure f) as [e'|] eqn:Hf; [intros [= <-]; eauto|].
    unfold add_constraint. destruct (constraint opts) as [s|]; [|discriminate].
    destruct (parse_constraint policy s) as [st ce|e'|[[p t] u]] eqn:Hp;
      try discriminate.
    intros [= <-]. apply parse_constraint_terminate in Hp as (-> & H).
    right. eauto.
  - unfold add_constraint. destruct (constraint opts) as [s|]; [|discriminate].
    destruct (parse_constraint policy s) as [st ce|e'|[[p t] u]] eqn:Hp;
      try discriminate.
    intros [= <-]. apply parse_constraint_terminate in Hp as (-> & H).
    right. eauto.
Qed.

End SetupMore.

Lemma main_setup_returns_failure_witness :
  Fit.EXIT_FAILURE = Fit.EXIT_FAILURE
  /\ Fit.unknown_balance "Pt" <> ""
  /\ (Fit.unknown_balance "Pt" = Fit.help_text
      \/ Fit.unknown_balance "Pt"
         = Fit.unknown_balance (Fit.balance Sample.bad_balance)
      \/ (exists s, Fit.constraint Sample.bad_balance = Some s
                    /\ Fit.unknown_balance "Pt" = Fit.parse_failure s)
      \/ Fit.unknown_balance "Pt" = Fit.no_measurements).
Proof.
  apply (main_setup_returns_failure Strtod.report_underflow (fun _ => None)
           Sample.bad_balance Fit.EXIT_FAILURE (Fit.unknown_balance "Pt")).
  reflexivity.
Defined.

Lemma main_setup_proceeds_witness :
  Fit.help Sample.trailing_text = false
  /\ false = String.eqb (Fit.to_lower (Fit.balance Sample.trailing_text)) "mpf"
  /\ (false = false
      -> Fit.to_lower (Fit.balance Sample.trailing_text) = "ptbal"%string)
  /\ multijet_loads (fun _ => None) Sample.trailing_text
  /\ [Fit.JetCorrConstraint 208 1.02 0.01] <> []
  /\ exists part,
       [Fit.JetCorrConstraint 208 1.02 0.01]
       = (match Fit.multijet Sample.trailing_text with
          | Some f => [Fit.MultijetCrawlingBins f
                         (if false then Fit.MPF else Fit.PtBal)
                         (0%float, 1600%float)]
          | None => []
          end ++ part)%list
       /\ match Fit.constraint Sample.trailing_text with
          | Some s =>
              exists ptRef targetCorr relUnc,
                Fit.parse_constraint Strtod.report_underflow s
                = Fit.Proceed (ptRef, targetCorr, relUnc)
                /\ part = [Fit.JetCorrConstraint ptRef targetCorr relUnc]
          | None => part = []
          end.
Proof.
  apply (proj1 (main_setup_proceeds Strtod.report_underflow (fun _ => None)
                  Sample.trailing_text false
                  [Fit.JetCorrConstraint 208 1.02 0.01])).
  reflexivity.
Defined.

Lemma main_setup_uncaught_witness :
  (exists f, Fit.multijet Inputs.huge_number = Some f
             /\ (fun _ : string => @None Strtod.exception) f
                = Some Strtod.out_of_range)
  \/ (Strtod.out_of_range = Strtod.out_of_range
      /\ exists s, Fit.constraint Inputs.huge_number = Some s
           /\ (2 <= List.length (ConstraintSpec.fields s))%nat
           /\ ConstraintSpec.first_exception Strtod.report_underflow
                (firstn 3 (ConstraintSpec.fields s))
              = Some Strtod.out_of_range).
Proof.
  apply (main_setup_uncaught Strtod.report_underflow (fun _ => None)
           Inputs.huge_number Strtod.out_of_range).
  vm_compute. reflexivity.
Defined.

(** ** Further properties of the minimizer's variables *)

Section VariablesMore.

Import Strtod Fit.
Local Open Scope string_scope.

(** Every variable after the two loops, for any [nPars] and registry. *)
Lemma set_variables_lookup nPars defs j :
  set_variables nPars defs ∅ !! j
  = if decide (nPOI_of nPars defs <= j < Z.to_nat nPars)%nat
    then Some (configured (GetName defs (j - nPOI_of nPars defs)) 1 (-5) 5)
    else if decide (0 <= j < nPOI_of nPars defs)%nat
         then Some (configured ("p" ++ to_string j) 0.01 (-1) 1)
         else None.
Proof.
  unfold set_variables. fold (nPOI_of nPars defs).
  rewrite (for_range_lookup (nPOI_of nPars defs) (Z.to_nat nPars)
             (fun i => GetName defs (i - nPOI_of nPars defs))).
  rewrite (for_range_lookup 0 (nPOI_of nPars defs) (fun i => "p" ++ to_string i)).
  rewrite lookup_empty. reflexivity.
Qed.

Lemma to_string_inj i j : to_string i = to_string j -> i = j.
Proof.
  unfold to_string. intros H.
  apply (f_equal NilEmpty.uint_of_string) in H.
  rewrite !NilEmpty.usu in H. injection H as H.
  apply (f_equal Nat.of_uint) in H. now rewrite !Unsigned.of_to in H.
Qed.

(** X14: every variable the driver hands to the minimizer starts at 0 with
    a positive step (none is fixed) and symmetric limits that have the start
    value strictly inside. *)
Theorem start_point_feasible (nPars : Z) (defs : NuisanceDefinitions) (i : nat)
  (v : variable) :
  set_variables nPars defs ∅ !! i = Some v ->
  value v = 0%float
  /\ (0 <? step v)%float = true
  /\ exists bound, limits v = Some ((- bound)%float, bound)
       /\ ((- bound) <? value v)%float = true
       /\ (value v <? bound)%float = true.
Proof.
  rewrite set_variables_lookup.
  destruct (decide _); [|destruct (decide _); [|discriminate]];
    intros [= <-]; simpl.
  - repeat split. exists 5%float. repeat split.
  - repeat split. exists 1%float. repeat split.
Qed.

Lemma start_point_feasible_witness :
  value (configured "jer" 1 (-5) 5) = 0%float
  /\ (0 <? step (configured "jer" 1 (-5) 5))%float = true
  /\ exists bound, limits (configured "jer" 1 (-5) 5) = Some ((- bound)%float, bound)
       /\ ((- bound) <? value (configured "jer" 1 (-5) 5))%float = true
       /\ (value (configured "jer" 1 (-5) 5) <? bound)%float = true.
Proof.
  apply (start_point_feasible 4 Inputs.registry 3 (configured "jer" 1 (-5) 5)).
  vm_compute. reflexivity.
Defined.

(** X15: when the registry is no larger than [nPars], exactly the indices
    0 .. nPars-1 are configured: the minimizer gets one variable per
    dimension of the function it minimizes. *)
Theorem variable_count (nPars : Z) (defs : NuisanceDefinitions) :
  (0 <= nPars < 2 ^ 32)%Z ->
  (Z.of_nat (List.length defs) <= nPars)%Z ->
  dom (set_variables nPars defs ∅) = set_seq 0 (Z.to_nat nPars)
  /\ size (set_variables nPars defs ∅) = Z.to_nat nPars.
Proof.
  intros Hn Hd.
  assert (Hdom : dom (set_variables nPars defs ∅)
                 = (set_seq 0 (Z.to_nat nPars) : gset nat)).
  { apply set_eq. intros j.
    rewrite elem_of_dom, elem_of_set_seq, set_variables_lookup.
    destruct (nPOI_cases nPars defs Hn) as [HG Hc].
    assert (HGeq : GetNumParams defs = Z.of_nat (List.length defs)).
    { unfold GetNumParams, Ieee.wrap32. apply Z.mod_small. lia. }
    assert (HP : (nPOI_of nPars defs <= Z.to_nat nPars)%nat).
    { unfold nPOI_of. destruct Hc as [[_ ->]|[Hlt _]]; lia. }
    destruct (decide _) as [H1|H1]; [|destruct (decide _) as [H2|H2]].
    - split; [lia | eauto].
    - split; [lia | eauto].
    - split; [intros [x Hx]; discriminate | lia]. }
  split; [exact Hdom|].
  rewrite <- size_dom, Hdom. apply size_set_seq.
Qed.

Lemma variable_count_witness :
  dom (set_variables 4 Inputs.registry ∅) = set_seq 0 (Z.to_nat 4)
  /\ size (set_variables 4 Inputs.registry ∅) = Z.to_nat 4.
Proof.
  apply (variable_count 4 Inputs.registry); [lia | simpl; lia].
Defined.

(** X16: when the registered names are pairwise distinct and none is a POI
    name (p followed by the decimal digits of a number), no two variables of
    the minimizer share a name. *)
Theorem variable_names_distinct (nPars : Z) (defs : NuisanceDefinitions)
  (i j : nat) (v w : variable) :
  (0 <= nPars < 2 ^ 32)%Z ->
  NoDup defs ->
  Forall (fun nm => forall k, nm <> "p" ++ to_string k) defs ->
  set_variables nPars defs ∅ !! i = Some v ->
  set_variables nPars defs ∅ !! j = Some w ->
  name v = name w -> i = j.
Proof.
  intros Hn Hnd Hp. rewrite !set_variables_lookup.
  destruct (nPOI_cases nPars defs Hn) as [HG Hc].
  assert (Hreg : forall k, (nPOI_of nPars defs <= k < Z.to_nat nPars)%nat ->
             defs !! (k - nPOI_of nPars defs)%nat
             = Some (GetName defs (k - nPOI_of nPars defs))).
  { intros k Hk.
    assert (Hlt : (k - nPOI_of nPars defs < List.length defs)%nat).
    { unfold nPOI_of in *.
      destruct Hc as [[Hle Hw]|[Hlt Hw]]; rewrite Hw in *; lia. }
    destruct (defs !! (k - nPOI_of nPars defs)%nat) as [nm|] eqn:Hnm.
    - unfold GetName. now rewrite (nth_lookup_Some _ _ _ _ Hnm).
    - apply lookup_ge_None in Hnm. lia. }
  assert (Hmix : forall k m, (nPOI_of nPars defs <= k < Z.to_nat nPars)%nat ->
             GetName defs (k - nPOI_of nPars defs) <> "p" ++ to_string m).
  { intros k m Hk Heq. pose proof (Hreg k Hk) as Hl. rewrite Heq in Hl.
    apply list_elem_of_lookup_2 in Hl.
    rewrite Forall_forall in Hp. now apply (Hp _ Hl m). }
  destruct (decide _) as [Hi|Hi];
    [|destruct (decide _) as [Hi'|Hi']; [|discriminate]];
    intros [= <-];
    (destruct (decide _) as [Hj|Hj];
     [|destruct (decide _) as [Hj'|Hj']; [|discriminate]]);
    intros [= <-]; simpl; intros Hname.
  - pose proof (Hreg i Hi) as H1. pose proof (Hreg j Hj) as H2.
    rewrite Hname in H1.
    pose proof (NoDup_lookup _ _ _ _ Hnd H1 H2). lia.
  - now apply Hmix in Hname.
  - symmetry in Hname. now apply Hmix in Hname.
  - injection Hname as Hname. now apply to_string_inj.
Qed.

Lemma variable_names_distinct_witness : 3%nat = 3%nat.
Proof.
  apply (variable_names_distinct 4 Inputs.registry 3 3
           (configured "jer" 1 (-5) 5) (configured "jer" 1 (-5) 5)).
  - lia.
  - apply (bool_decide_unpack _). vm_compute. exact I.
  - repeat constructor; intros k H; discriminate H.
  - vm_compute. reflexivity.
  - vm_compute. reflexivity.
  - reflexivity.
Defined.

End VariablesMore.
